(** * Gemini File Analyzer: the document tree and the smart-tag workflow

    A shallow embedding of [types.ts], of the tree helpers and the handlers
    of [App.tsx] and of [compareImages] from [services/geminiService.ts],
    followed by the properties of the specification that are stated about
    them.

    Conventions of the embedding.
    - A [TreeNode[]] is a [list TreeNode]; object spread [{...node, k: v}]
      is the same constructor with field [k] replaced.
    - A [Set<string>] is the list of its elements in insertion order.
    - A JavaScript computation that may throw returns a [Result].
    - The React state of the [App] component is part of the record
      [World]; a handler receives, next to the world it updates through
      the setters, the value [treeData] that its closure captured at
      render time.
    - [setTimeout] registers a defunctionalised callback in a timer table
      driven by a logical clock in milliseconds. *)

From Stdlib Require Import Ascii.
From Stdlib Require Import String List Bool Arith Lia Permutation.
Import ListNotations.
Local Open Scope string_scope.
Local Open Scope list_scope.

(* ================================================================== *)
(** ** types.ts *)

Record AnalysisResult : Type := mkAnalysisResult {
  summary : string;
  suggestedName : string;
  tags : list string;
  documentType : string
}.

Record FileNode : Type := mkFileNode {
  id : string;
  name : string;
  content : string;       (* base64 for images, text for others *)
  mimeType : string;
  analysis : option AnalysisResult;
  path : string
}.

(** [TreeNode = FileNode | FolderNode]; a folder carries [id], [name],
    [path] and its ordered [children]. *)
#[warnings="-register-all"]
Inductive TreeNode : Type :=
| File (f : FileNode)
| Folder (folderId folderName folderPath : string) (children : list TreeNode).

Definition nodeId (node : TreeNode) : string :=
  match node with
  | File f => id f
  | Folder i _ _ _ => i
  end.

(* ================================================================== *)
(** ** JavaScript building blocks *)

(** A computation either returns or throws an [Error] with a message. *)
Inductive Result (A : Type) : Type :=
| Ok (a : A)
| Throw (message : string).
Arguments Ok {A} a.
Arguments Throw {A} message.

Definition bind {A B : Type} (m : Result A) (k : A -> Result B) : Result B :=
  match m with
  | Ok a => k a
  | Throw e => Throw e
  end.

(** [try { body } catch (error) { handler(error) }] *)
Definition try_catch {A : Type} (body : Result A) (handler : string -> Result A)
  : Result A :=
  match body with
  | Ok a => Ok a
  | Throw e => handler e
  end.

Notation "x <- m ;; k" := (bind m (fun x => k))
  (at level 61, m at next level, right associativity).

(** [array.includes(x)] on an array of strings. *)
Fixpoint includes (xs : list string) (x : string) : bool :=
  match xs with
  | [] => false
  | y :: ys => if String.eqb y x then true else includes ys x
  end.

(** [set.add(x)]: a [Set] keeps the first insertion of each value. *)
Definition set_add (s : list string) (x : string) : list string :=
  if includes s x then s else s ++ [x].

(** [new Set(array)]: the values are added from left to right. *)
Definition set_of_array (xs : list string) : list string :=
  fold_left set_add xs [].

(** [mimeType.startsWith('image/')] *)
Definition isImageMime (mime : string) : bool := String.prefix "image/" mime.

(* ================================================================== *)
(** ** App.tsx: the tree helpers *)

(** The body of [nodes.map(node => ...)] in [updateNodeInTree]. *)
Fixpoint updateNode (targetId : string) (updateFn : TreeNode -> TreeNode)
  (node : TreeNode) : TreeNode :=
  if String.eqb (nodeId node) targetId then updateFn node
  else match node with
       | Folder i n p children =>
           Folder i n p (map (updateNode targetId updateFn) children)
       | File _ => node
       end.

Definition updateNodeInTree (nodes : list TreeNode) (targetId : string)
  (updateFn : TreeNode -> TreeNode) : list TreeNode :=
  map (updateNode targetId updateFn) nodes.

(** The [for (const node of nodes)] loop of [removeNodeFromTree];
    [onKept] is what is pushed for a node that is kept. *)
Definition removeLoop (targetId : string) (onKept : TreeNode -> TreeNode)
  : list TreeNode -> list TreeNode :=
  fix loop (nodes : list TreeNode) : list TreeNode :=
    match nodes with
    | [] => []
    | node :: rest =>
        if String.eqb (nodeId node) targetId then loop rest
        else onKept node :: loop rest
    end.

Fixpoint removeKept (targetId : string) (node : TreeNode) : TreeNode :=
  match node with
  | Folder i n p children =>
      Folder i n p (removeLoop targetId (removeKept targetId) children)
  | File _ => node
  end.

Definition removeNodeFromTree (nodes : list TreeNode) (targetId : string)
  : list TreeNode :=
  removeLoop targetId (removeKept targetId) nodes.

(** The loop of [findAllImageFiles]; [inFolder] is the recursive call on
    the children of a folder. *)
Definition imagesLoop (inFolder : TreeNode -> list FileNode)
  : list TreeNode -> list FileNode :=
  fix loop (nodes : list TreeNode) : list FileNode :=
    match nodes with
    | [] => []
    | File f :: rest =>
        if isImageMime (mimeType f) then f :: loop rest else loop rest
    | (Folder _ _ _ _ as node) :: rest => inFolder node ++ loop rest
    end.

Fixpoint imagesInside (node : TreeNode) : list FileNode :=
  match node with
  | Folder _ _ _ children => imagesLoop imagesInside children
  | File _ => []
  end.

Definition findAllImageFiles (nodes : list TreeNode) : list FileNode :=
  imagesLoop imagesInside nodes.

(** The loop of [findNodeInTree]; [inFolder] is the recursive call on the
    children of a folder ([null] for a file, which has none). *)
Definition findLoop (targetId : string) (inFolder : TreeNode -> option TreeNode)
  : list TreeNode -> option TreeNode :=
  fix loop (nodes : list TreeNode) : option TreeNode :=
    match nodes with
    | [] => None
    | node :: rest =>
        if String.eqb (nodeId node) targetId then Some node
        else match inFolder node with
             | Some found => Some found
             | None => loop rest
             end
    end.

Fixpoint findInside (targetId : string) (node : TreeNode) : option TreeNode :=
  match node with
  | Folder _ _ _ children => findLoop targetId (findInside targetId) children
  | File _ => None
  end.

Definition findNodeInTree (nodes : list TreeNode) (targetId : string)
  : option TreeNode :=
  findLoop targetId (findInside targetId) nodes.

(* ================================================================== *)
(** ** App.tsx: component state, timers and the outside world *)

(** The texts passed to [setPropagationStatus]; the two template strings
    keep their numbers as arguments. *)
Inductive StatusMessage : Type :=
| MsgEmpty                          (* '' *)
| MsgScanning                       (* 'Scanning for similar images... This may take a moment.' *)
| MsgNoOtherImages                  (* 'No other images found to compare.' *)
| MsgComparing (i n : nat)          (* `Comparing image ${i} of ${n}...` *)
| MsgApplied (updatedCount : nat).  (* `Smart tag applied! ${updatedCount} other image(s) were updated.` *)

Record PropagationStatus : Type := mkPropagationStatus {
  running : bool;
  message : StatusMessage
}.

Inductive SaveStatus : Type :=
| AllChangesSaved   (* 'All changes saved' *)
| Saving            (* 'Saving...' *)
| ErrorSaving.      (* 'Error saving' *)

(** The three callbacks that [App.tsx] hands to [setTimeout], with the
    variables their closures capture. *)
Inductive Callback : Type :=
| SaveTree (treeData : list TreeNode)
| StartPropagation (treeData : list TreeNode) (fileId tag : string)
| ClearPropagationStatus.

Record Timer : Type := mkTimer {
  timerId : nat;
  due : nat;
  callback : Callback
}.

Record World : Type := mkWorld {
  (* the [useState] cells of [App] *)
  treeData : list TreeNode;
  selectedFile : option FileNode;
  isLoading : bool;
  error : option string;
  propagationStatus : PropagationStatus;
  saveStatus : SaveStatus;
  (* the cleanup function returned by the last run of the save effect *)
  saveCleanup : option nat;
  (* the timer table of the runtime *)
  clock : nat;
  timers : list Timer;
  nextTimerId : nat;
  (* the outside world *)
  storageWrites : list (list TreeNode);       (* the trees of the calls [localStorage.setItem(KEY, JSON.stringify(tree))], oldest first *)
  analyzerCalls : list (string * string * string);
  compareCalls : list (FileNode * FileNode);  (* (source, target), oldest first *)
  console : list string
}.

Definition setTreeData (f : list TreeNode -> list TreeNode) (w : World) : World :=
  mkWorld (f (treeData w)) (selectedFile w) (isLoading w) (error w)
    (propagationStatus w) (saveStatus w) (saveCleanup w) (clock w) (timers w)
    (nextTimerId w) (storageWrites w) (analyzerCalls w) (compareCalls w) (console w).

Definition setSelectedFile (f : option FileNode -> option FileNode) (w : World) : World :=
  mkWorld (treeData w) (f (selectedFile w)) (isLoading w) (error w)
    (propagationStatus w) (saveStatus w) (saveCleanup w) (clock w) (timers w)
    (nextTimerId w) (storageWrites w) (analyzerCalls w) (compareCalls w) (console w).

Definition setIsLoading (b : bool) (w : World) : World :=
  mkWorld (treeData w) (selectedFile w) b (error w)
    (propagationStatus w) (saveStatus w) (saveCleanup w) (clock w) (timers w)
    (nextTimerId w) (storageWrites w) (analyzerCalls w) (compareCalls w) (console w).

Definition setError (e : option string) (w : World) : World :=
  mkWorld (treeData w) (selectedFile w) (isLoading w) e
    (propagationStatus w) (saveStatus w) (saveCleanup w) (clock w) (timers w)
    (nextTimerId w) (storageWrites w) (analyzerCalls w) (compareCalls w) (console w).

Definition setPropagationStatus (s : PropagationStatus) (w : World) : World :=
  mkWorld (treeData w) (selectedFile w) (isLoading w) (error w)
    s (saveStatus w) (saveCleanup w) (clock w) (timers w)
    (nextTimerId w) (storageWrites w) (analyzerCalls w) (compareCalls w) (console w).

Definition setSaveStatus (s : SaveStatus) (w : World) : World :=
  mkWorld (treeData w) (selectedFile w) (isLoading w) (error w)
    (propagationStatus w) s (saveCleanup w) (clock w) (timers w)
    (nextTimerId w) (storageWrites w) (analyzerCalls w) (compareCalls w) (console w).

Definition setSaveCleanup (c : option nat) (w : World) : World :=
  mkWorld (treeData w) (selectedFile w) (isLoading w) (error w)
    (propagationStatus w) (saveStatus w) c (clock w) (timers w)
    (nextTimerId w) (storageWrites w) (analyzerCalls w) (compareCalls w) (console w).

Definition setClock (t : nat) (w : World) : World :=
  mkWorld (treeData w) (selectedFile w) (isLoading w) (error w)
    (propagationStatus w) (saveStatus w) (saveCleanup w) t (timers w)
    (nextTimerId w) (storageWrites w) (analyzerCalls w) (compareCalls w) (console w).

Definition setTimers (ts : list Timer) (w : World) : World :=
  mkWorld (treeData w) (selectedFile w) (isLoading w) (error w)
    (propagationStatus w) (saveStatus w) (saveCleanup w) (clock w) ts
    (nextTimerId w) (storageWrites w) (analyzerCalls w) (compareCalls w) (console w).

Definition setNextTimerId (n : nat) (w : World) : World :=
  mkWorld (treeData w) (selectedFile w) (isLoading w) (error w)
    (propagationStatus w) (saveStatus w) (saveCleanup w) (clock w) (timers w)
    n (storageWrites w) (analyzerCalls w) (compareCalls w) (console w).

Definition localStorage_setItem (value : list TreeNode) (w : World) : World :=
  mkWorld (treeData w) (selectedFile w) (isLoading w) (error w)
    (propagationStatus w) (saveStatus w) (saveCleanup w) (clock w) (timers w)
    (nextTimerId w) (storageWrites w ++ [value]) (analyzerCalls w)
    (compareCalls w) (console w).

Definition logAnalyzerCall (c : string * string * string) (w : World) : World :=
  mkWorld (treeData w) (selectedFile w) (isLoading w) (error w)
    (propagationStatus w) (saveStatus w) (saveCleanup w) (clock w) (timers w)
    (nextTimerId w) (storageWrites w) (analyzerCalls w ++ [c])
    (compareCalls w) (console w).

Definition logCompareCall (c : FileNode * FileNode) (w : World) : World :=
  mkWorld (treeData w) (selectedFile w) (isLoading w) (error w)
    (propagationStatus w) (saveStatus w) (saveCleanup w) (clock w) (timers w)
    (nextTimerId w) (storageWrites w) (analyzerCalls w)
    (compareCalls w ++ [c]) (console w).

Definition console_error (text : string) (w : World) : World :=
  mkWorld (treeData w) (selectedFile w) (isLoading w) (error w)
    (propagationStatus w) (saveStatus w) (saveCleanup w) (clock w) (timers w)
    (nextTimerId w) (storageWrites w) (analyzerCalls w) (compareCalls w)
    (console w ++ [text]).

(** A handler is a computation over the [World] that may throw; what it
    did before throwing stays done. *)
Definition Js (A : Type) : Type := World -> Result A * World.

Definition ret {A : Type} (a : A) : Js A := fun w => (Ok a, w).

Definition throw {A : Type} (e : string) : Js A := fun w => (Throw e, w).

Definition seq {A B : Type} (m : Js A) (k : A -> Js B) : Js B :=
  fun w => match m w with
           | (Ok a, w') => k a w'
           | (Throw e, w') => (Throw e, w')
           end.

Definition tryCatch {A : Type} (body : Js A) (handler : string -> Js A) : Js A :=
  fun w => match body w with
           | (Ok a, w') => (Ok a, w')
           | (Throw e, w') => handler e w'
           end.

(** [try { body } catch (e) { handler } finally { finalizer }] *)
Definition tryCatchFinally (body : Js unit) (handler : string -> Js unit)
  (finalizer : Js unit) : Js unit :=
  fun w => match tryCatch body handler w with
           | (Ok _, w') => finalizer w'
           | (Throw e, w') =>
               match finalizer w' with
               | (Ok _, w'') => (Throw e, w'')
               | (Throw e', w'') => (Throw e', w'')
               end
           end.

Definition act (f : World -> World) : Js unit := fun w => (Ok tt, f w).

Notation "x <-- m ;;; k" := (seq m (fun x => k))
  (at level 61, m at next level, right associativity).
Notation "m ;;; k" := (seq m (fun _ => k))
  (at level 61, right associativity).

(** [setTimeout(callback, delay)] returns the id of the new timer. *)
Definition setTimeout (cb : Callback) (delay : nat) : Js nat :=
  fun w =>
    let tid := nextTimerId w in
    (Ok tid,
     setNextTimerId (S tid)
       (setTimers (timers w ++ [mkTimer tid (clock w + delay) cb]) w)).

Definition clearTimeout (tid : nat) : Js unit :=
  act (fun w =>
         setTimers (filter (fun t => negb (Nat.eqb (timerId t) tid)) (timers w)) w).

(* ================================================================== *)
(** ** services/geminiService.ts: [compareImages] *)

Section GeminiService.

(** [ai.models.generateContent] on the request built from the two
    images (their [content] and [mimeType]); it returns the response
    text or throws. *)
Variable generateContent : string * string -> string * string -> Result string.

(** [JSON.parse(jsonString) as { match: boolean }], read at [.match]. *)
Variable JSON_parse_match : string -> Result bool.

Definition compareImages (sourceImage targetImage : FileNode) : Result bool :=
  try_catch
    (jsonString <- generateContent
                     (content sourceImage, mimeType sourceImage)
                     (content targetImage, mimeType targetImage) ;;
     isMatch <- JSON_parse_match jsonString ;;
     Ok isMatch)
    (fun _ =>
       (* Return false on error to avoid incorrect tagging *)
       Ok false).

End GeminiService.

(* ================================================================== *)
(** ** App.tsx: the handlers *)

(** The analysis shell of [handleAddTag] for a file without analysis. *)
Definition addTagShell : AnalysisResult :=
  mkAnalysisResult "" "" [] "Unknown".

Definition withAnalysis (f : FileNode) (a : option AnalysisResult) : FileNode :=
  mkFileNode (id f) (name f) (content f) (mimeType f) a (path f).

Definition withTags (a : AnalysisResult) (ts : list string) : AnalysisResult :=
  mkAnalysisResult (summary a) (suggestedName a) ts (documentType a).

(** What [updateFn] of [handleAddTag] returns for the file it targets. *)
Definition addTagToFile (newTag : string) (fileNode : FileNode) : FileNode :=
  let a := match analysis fileNode with
           | Some a => a
           | None => addTagShell
           end in
  if includes (tags a) newTag then fileNode
  else withAnalysis fileNode (Some (withTags a (tags a ++ [newTag]))).

Definition addTagUpdateFn (fileId newTag : string) (n : TreeNode) : TreeNode :=
  match n with
  | File fileNode =>
      if String.eqb (id fileNode) fileId
      then File (addTagToFile newTag fileNode)
      else n
  | Folder _ _ _ _ => n
  end.

(** The nodes on which [updateNodeInTree] calls [updateFn], in call order;
    [handleAddTag] reads them through the variable [updatedNode] that its
    [updateFn] assigns. *)
Fixpoint updateFnCallsAt (targetId : string) (node : TreeNode) : list TreeNode :=
  if String.eqb (nodeId node) targetId then [node]
  else match node with
       | Folder _ _ _ children => flat_map (updateFnCallsAt targetId) children
       | File _ => []
       end.

Definition updateFnCalls (nodes : list TreeNode) (targetId : string)
  : list TreeNode :=
  flat_map (updateFnCallsAt targetId) nodes.

Definition lastUpdatedNode (fileId newTag : string) (calls : list TreeNode)
  : option FileNode :=
  fold_left
    (fun updatedNode n =>
       match n with
       | File fileNode =>
           if String.eqb (id fileNode) fileId
           then Some (addTagToFile newTag fileNode)
           else updatedNode
       | Folder _ _ _ _ => updatedNode
       end)
    calls None.

(** [handleAddTag]; the updater given to [setTreeData] is run at once. *)
Definition handleAddTag (fileId newTag : string) : Js unit :=
  fun w =>
    let updatedNode :=
      lastUpdatedNode fileId newTag (updateFnCalls (treeData w) fileId) in
    let w1 :=
      setTreeData
        (fun prev => updateNodeInTree prev fileId (addTagUpdateFn fileId newTag))
        w in
    match updatedNode with
    | Some n => (Ok tt, setSelectedFile (fun _ => Some n) w1)
    | None => (Ok tt, w1)
    end.

(** [img.analysis?.tags.includes(newTag)], [undefined] read as [false]. *)
Definition hasTag (newTag : string) (img : FileNode) : bool :=
  match analysis img with
  | Some a => includes (tags a) newTag
  | None => false
  end.

(** The analysis that [recursivelyUpdateTags] gives to a matched file. *)
Definition applyTag (newTag : string) (fileNode : FileNode) : FileNode :=
  let newTags := match analysis fileNode with
                 | Some a => tags a ++ [newTag]
                 | None => [newTag]
                 end in
  let newAnalysis := match analysis fileNode with
                     | Some a => withTags a (set_of_array newTags)
                     | None => mkAnalysisResult "" "" [newTag] ""
                     end in
  withAnalysis fileNode (Some newAnalysis).

Fixpoint updateTagsNode (updatedImageIds : list string) (newTag : string)
  (node : TreeNode) : TreeNode :=
  match node with
  | File fileNode =>
      if includes updatedImageIds (id fileNode)
      then File (applyTag newTag fileNode)
      else node
  | Folder i n p children =>
      Folder i n p (map (updateTagsNode updatedImageIds newTag) children)
  end.

Definition recursivelyUpdateTags (updatedImageIds : list string)
  (newTag : string) (nodes : list TreeNode) : list TreeNode :=
  map (updateTagsNode updatedImageIds newTag) nodes.

(** [otherImages] of [propagateTagToSimilarImages]. *)
Definition otherImagesOf (treeData : list TreeNode) (sourceFile : FileNode)
  (newTag : string) : list FileNode :=
  filter
    (fun img => negb (String.eqb (id img) (id sourceFile))
                && negb (hasTag newTag img))
    (findAllImageFiles treeData).

Section App.

(** The analyzer of [geminiService.ts]: the answer to the call that has
    [k] calls before it. *)
Variable analyzeFile :
  nat -> string -> string -> string -> Result AnalysisResult.

(** The comparator, [compareImages] of [geminiService.ts] or any other. *)
Variable compareImagesFn : FileNode -> FileNode -> Result bool.

Definition callAnalyzeFile (fileName fileContent mime : string)
  : Js AnalysisResult :=
  fun w =>
    (analyzeFile (length (analyzerCalls w)) fileName fileContent mime,
     logAnalyzerCall (fileName, fileContent, mime) w).

Definition callCompareImages (sourceFile targetFile : FileNode) : Js bool :=
  fun w =>
    (compareImagesFn sourceFile targetFile,
     logCompareCall (sourceFile, targetFile) w).

(** [updateAnalysis] of [handleSelectNode]; the cast [as FileNode] is
    read as: the node with the id of the selected file is a file. *)
Definition updateAnalysis (node : FileNode) (analysisResult : AnalysisResult)
  (n : TreeNode) : TreeNode :=
  match n with
  | File f =>
      if String.eqb (id f) (id node)
      then File (withAnalysis f (Some analysisResult))
      else n
  | Folder _ _ _ _ => n
  end.

Definition analysisFailedDefault : string :=
  "Failed to analyze the file. An unknown error occurred.".

Definition handleSelectNode (node : FileNode) : Js unit :=
  act (setSelectedFile (fun _ => Some node)) ;;;
  act (setError None) ;;;
  match analysis node with
  | Some _ => ret tt   (* Already analyzed *)
  | None =>
      tryCatchFinally
        (act (setIsLoading true) ;;;
         analysisResult <-- callAnalyzeFile (name node) (content node)
                              (mimeType node) ;;;
         act (setTreeData
                (fun prevTree =>
                   updateNodeInTree prevTree (id node)
                     (updateAnalysis node analysisResult))) ;;;
         act (setSelectedFile
                (fun prevFile =>
                   match prevFile with
                   | Some p =>
                       if String.eqb (id p) (id node)
                       then Some (withAnalysis p (Some analysisResult))
                       else prevFile
                   | None => prevFile
                   end)))
        (fun err =>
           act (console_error err) ;;;
           act (setError
                  (Some (if String.eqb err "" then analysisFailedDefault
                         else err))))
        (act (setIsLoading false))
  end.

(** The [for] loop of [propagateTagToSimilarImages] from index [i] on,
    over the remaining [targets] of the [n] other images. *)
Fixpoint compareLoop (sourceFile : FileNode) (n i : nat)
  (targets : list FileNode) (updatedCount : nat)
  (updatedImageIds : list string) : Js (nat * list string) :=
  match targets with
  | [] => ret (updatedCount, updatedImageIds)
  | targetFile :: rest =>
      act (setPropagationStatus
             (mkPropagationStatus true (MsgComparing (i + 1) n))) ;;;
      acc <-- tryCatch
                (isMatch <-- callCompareImages sourceFile targetFile ;;;
                 if (isMatch : bool)
                 then ret (S updatedCount,
                           set_add updatedImageIds (id targetFile))
                 else ret (updatedCount, updatedImageIds))
                (fun err =>
                   act (console_error err) ;;;
                   ret (updatedCount, updatedImageIds)) ;;;
      compareLoop sourceFile n (S i) rest (fst acc) (snd acc)
  end.

(** [propagateTagToSimilarImages] from the test on [otherImages] on. *)
Definition scanAndApply (otherImages : list FileNode)
  (sourceFile : FileNode) (newTag : string) : Js unit :=
  if Nat.eqb (length otherImages) 0 then
    act (setPropagationStatus (mkPropagationStatus true MsgNoOtherImages)) ;;;
    _ <-- setTimeout ClearPropagationStatus 3000 ;;;
    ret tt
  else
    acc <-- compareLoop sourceFile (length otherImages) 0 otherImages 0 [] ;;;
    let updatedCount := fst acc in
    let updatedImageIds := snd acc in
    (if Nat.ltb 0 (length updatedImageIds)
     then act (setTreeData (recursivelyUpdateTags updatedImageIds newTag))
     else ret tt) ;;;
    act (setPropagationStatus
           (mkPropagationStatus true (MsgApplied updatedCount))) ;;;
    _ <-- setTimeout ClearPropagationStatus 5000 ;;;
    ret tt.

(** [propagateTagToSimilarImages], run to completion; [treeData] is the
    value captured by the closure, the tree that [setTreeData] updates
    is the one of the [World]. *)
Definition propagateTagToSimilarImages (treeData : list TreeNode)
  (sourceFile : FileNode) (newTag : string) : Js unit :=
  act (setPropagationStatus (mkPropagationStatus true MsgScanning)) ;;;
  scanAndApply (otherImagesOf treeData sourceFile newTag) sourceFile newTag.

Definition sourceNotFound : string :=
  "Source file not found or is not an image.".

(** [handlePropagateTag] as created by the render whose tree is
    [treeData]. *)
Definition handlePropagateTag (treeData : list TreeNode)
  (fileId tag : string) : Js unit :=
  match findNodeInTree treeData fileId with
  | Some (File sourceFile) =>
      if isImageMime (mimeType sourceFile) then
        (* First, add the tag to the source image itself *)
        handleAddTag fileId tag ;;;
        (* Then, propagate to others *)
        _ <-- setTimeout (StartPropagation treeData fileId tag) 100 ;;;
        ret tt
      else act (console_error sourceNotFound)
  | _ => act (console_error sourceNotFound)
  end.

(** The body of the save effect for the render whose tree is [treeData],
    after the cleanup of the previous run. *)
Definition saveEffect (treeData : list TreeNode) : Js unit :=
  (fun w => match saveCleanup w with
            | Some timeoutId => clearTimeout timeoutId w
            | None => (Ok tt, w)
            end) ;;;
  act (setSaveStatus Saving) ;;;
  cleanup <-- tryCatch
                (timeoutId <-- setTimeout (SaveTree treeData) 500 ;;;
                 ret (Some timeoutId))
                (fun err =>
                   act (console_error err) ;;;
                   act (setSaveStatus ErrorSaving) ;;;
                   ret None) ;;;
  act (setSaveCleanup cleanup).

(** What a timer does when it fires. *)
Definition runCallback (cb : Callback) : Js unit :=
  match cb with
  | SaveTree treeData =>
      act (localStorage_setItem treeData) ;;;
      act (setSaveStatus AllChangesSaved)
  | StartPropagation treeData fileId tag =>
      match findNodeInTree treeData fileId with
      | Some (File freshSourceFile) =>
          propagateTagToSimilarImages treeData freshSourceFile tag
      | _ => throw "TypeError"
      end
  | ClearPropagationStatus =>
      act (setPropagationStatus (mkPropagationStatus false MsgEmpty))
  end.

(** The timers that are due are fired in the order of their
    registration; an exception of a callback is reported and dropped. *)
Fixpoint fireAll (dueNow : list Timer) : Js unit :=
  match dueNow with
  | [] => ret tt
  | t :: rest =>
      tryCatch (runCallback (callback t))
               (fun err => act (console_error err)) ;;;
      fireAll rest
  end.

(** One millisecond passes. *)
Definition tick : Js unit :=
  fun w =>
    let t := S (clock w) in
    let dueNow := filter (fun x => Nat.leb (due x) t) (timers w) in
    let later := filter (fun x => negb (Nat.leb (due x) t)) (timers w) in
    fireAll dueNow (setTimers later (setClock t w)).

Fixpoint advance (ms : nat) : Js unit :=
  match ms with
  | 0 => ret tt
  | S ms' => tick ;;; advance ms'
  end.

(** One change of the tree followed by the render that re-runs the save
    effect: the [scheduleSave] of the specification. *)
Definition scheduleSave (tree : list TreeNode) : Js unit :=
  act (setTreeData (fun _ => tree)) ;;;
  saveEffect tree.

(** A full run of the smart-tag workflow from the render whose tree is
    the current one: the handler, then the 100 ms that start the scan. *)
Definition propagateTag (fileId tag : string) : Js unit :=
  fun w => (handlePropagateTag (treeData w) fileId tag ;;; advance 100) w.

End App.

(* ================================================================== *)
(** ** Observations on a tree, used to state the properties *)

(** The ids of a tree in pre-order. *)
Fixpoint idsOfNode (node : TreeNode) : list string :=
  nodeId node ::
  match node with
  | Folder _ _ _ children => flat_map idsOfNode children
  | File _ => []
  end.

Definition idsOf (nodes : list TreeNode) : list string :=
  flat_map idsOfNode nodes.

(** The file nodes of a tree in pre-order. *)
Fixpoint filesOfNode (node : TreeNode) : list FileNode :=
  match node with
  | File f => [f]
  | Folder _ _ _ children => flat_map filesOfNode children
  end.

Definition filesOf (nodes : list TreeNode) : list FileNode :=
  flat_map filesOfNode nodes.

(** Node ids are unique across the entire tree. *)
Definition uniqueIds (nodes : list TreeNode) : Prop := NoDup (idsOf nodes).

(** The ids of the subtree rooted at the node that [findNodeInTree]
    returns for [targetId]; empty when there is none. *)
Definition subtreeIds (nodes : list TreeNode) (targetId : string) : list string :=
  match findNodeInTree nodes targetId with
  | Some node => idsOfNode node
  | None => []
  end.

(** The file with id [i] carries [tag] in its analysis tags. *)
Definition carriesTag (tag : string) (nodes : list TreeNode) (i : string) : Prop :=
  exists f, In f (filesOf nodes) /\ id f = i /\ hasTag tag f = true.

(** No file of the tree has a tag twice. *)
Definition tagsOf (f : FileNode) : list string :=
  match analysis f with
  | Some a => tags a
  | None => []
  end.

Definition noDuplicateTags (nodes : list TreeNode) : Prop :=
  Forall (fun f => NoDup (tagsOf f)) (filesOf nodes).

(* ================================================================== *)
(** ** Concrete trees *)

(** [initialTreeData] of [App.tsx]. *)
Definition initialTreeData : list TreeNode :=
  [ Folder "1" "Documents" "/Documents"
      [ File (mkFileNode "2" "report.txt"
                "This is the final report for Project Alpha. It includes a summary of findings and recommendations."
                "text/plain" None "/Documents/report.txt") ];
    Folder "3" "Images" "/Images" [] ].

(** A comparison counts as a match when it returns [true]. *)
Definition isMatchResult (r : Result bool) : bool :=
  match r with
  | Ok true => true
  | _ => false
  end.

(** The comparator that answers [false] where [compareFn] throws. *)
Definition failureAsNoMatch (compareFn : FileNode -> FileNode -> Result bool)
  (sourceFile targetFile : FileNode) : Result bool :=
  match compareFn sourceFile targetFile with
  | Ok b => Ok b
  | Throw _ => Ok false
  end.

(** The candidates that the comparator matches with [sourceFile]. *)
Definition matchesOf (compareFn : FileNode -> FileNode -> Result bool)
  (sourceFile : FileNode) (candidates : list FileNode) : list FileNode :=
  filter (fun c => isMatchResult (compareFn sourceFile c)) candidates.

(** A world with the given tree, nothing selected, no timer pending and
    nothing logged. *)
Definition freshWorld (tree : list TreeNode) : World :=
  mkWorld tree None false None (mkPropagationStatus false MsgEmpty)
    AllChangesSaved None 0 [] 0 [] [] [] [].

(** The scenario of the specification: a folder "Images" with two PNG
    files without analysis. *)
Definition imageA : FileNode :=
  mkFileNode "a" "a.png" "QUFB" "image/png" None "/Images/a.png".

Definition imageB : FileNode :=
  mkFileNode "b" "b.png" "QkJC" "image/png" None "/Images/b.png".

Definition imagesTree : list TreeNode :=
  [ Folder "3" "Images" "/Images" [ File imageA; File imageB ] ].


(** What a step of the workflow leaves alone in the runtime and in the
    outside world, the comparator log apart. *)
Definition sameRuntime (w w' : World) : Prop :=
  clock w' = clock w
  /\ timers w' = timers w
  /\ nextTimerId w' = nextTimerId w
  /\ storageWrites w' = storageWrites w
  /\ analyzerCalls w' = analyzerCalls w.

(** The world without what was written to the console. *)
Definition withoutConsole (w : World) : World :=
  mkWorld (treeData w) (selectedFile w) (isLoading w) (error w)
    (propagationStatus w) (saveStatus w) (saveCleanup w) (clock w) (timers w)
    (nextTimerId w) (storageWrites w) (analyzerCalls w) (compareCalls w) [].

(** [updateFn] rewrites a file into a file and returns a folder as it is. *)
Definition fileLocal (updateFn : TreeNode -> TreeNode) (g : FileNode -> FileNode)
  : Prop :=
  (forall f, updateFn (File f) = File (g f))
  /\ (forall i n p children,
         updateFn (Folder i n p children) = Folder i n p children).

(** What the two updates of a run do to a file of the tree. *)
Definition addTagWhere (fileId tag : string) (f : FileNode) : FileNode :=
  if String.eqb (id f) fileId then addTagToFile tag f else f.

Definition applyTagWhere (ids : list string) (tag : string) (f : FileNode)
  : FileNode :=
  if includes ids (id f) then applyTag tag f else f.

(** An analysis whose tags repeat a value, as an analyzer may return it. *)
Definition repeatedTags : AnalysisResult :=
  mkAnalysisResult "A photo." "photo.png" ["photo"; "photo"] "Image".

(** File "a" of [imagesTree] with an analysis attached. *)
Definition analysedA : FileNode :=
  withAnalysis imageA (Some (mkAnalysisResult "A cat." "cat.png" ["cat"] "Image")).

(** The timer of the save effect is the only one pending: it is due at
    [d], will write [tree], and is the one the effect's cleanup clears. *)
Definition pendingSave (tree : list TreeNode) (d : nat) (w : World) : Prop :=
  exists tid,
    timers w = [ mkTimer tid d (SaveTree tree) ] /\ saveCleanup w = Some tid.

Section Bursts.

Variable compareImagesFn : FileNode -> FileNode -> Result bool.

(** Further changes of the tree, each one [gap] milliseconds after the
    change before it. *)
Fixpoint saveBurst (calls : list (nat * list TreeNode)) : Js unit :=
  match calls with
  | [] => ret tt
  | (gap, tree) :: rest =>
      advance compareImagesFn gap ;;;
      scheduleSave tree ;;;
      saveBurst rest
  end.

End Bursts.

(* ================================================================== *)
(** ** App.tsx: the remaining handlers *)

(** [handleRemoveNode] as created by the render in which [selectedFile]
    has the value [selectedAtRender]. *)
Definition handleRemoveNode (selectedAtRender : option FileNode)
  (targetId : string) : Js unit :=
  act (setTreeData (fun prev => removeNodeFromTree prev targetId)) ;;;
  match selectedAtRender with
  | Some f =>
      if String.eqb (id f) targetId
      then act (setSelectedFile (fun _ => None))
      else ret tt
  | None => ret tt
  end.

Definition withName (f : FileNode) (newName : string) : FileNode :=
  mkFileNode (id f) newName (content f) (mimeType f) (analysis f) (path f).

(** [updateName] of [handleUpdateFileName]: [{ ...n, name: newName }]. *)
Definition updateName (newName : string) (n : TreeNode) : TreeNode :=
  match n with
  | File f => File (withName f newName)
  | Folder i _ p children => Folder i newName p children
  end.

Definition handleUpdateFileName (fileId newName : string) : Js unit :=
  act (setTreeData
         (fun prev => updateNodeInTree prev fileId (updateName newName))) ;;;
  act (setSelectedFile
         (fun prev =>
            match prev with
            | Some p =>
                if String.eqb (id p) fileId
                then Some (withName p newName)
                else prev
            | None => prev
            end)).

(** [tags.filter(tag => tag !== tagToRemove)] *)
Definition withoutTag (tagToRemove : string) (ts : list string) : list string :=
  filter (fun tag => negb (String.eqb tag tagToRemove)) ts.

(** What [handleRemoveTag] makes of a file that has an analysis, in the
    tree and in the selection alike. *)
Definition removeTagFromFile (tagToRemove : string) (fileNode : FileNode)
  : FileNode :=
  match analysis fileNode with
  | Some a =>
      withAnalysis fileNode
        (Some (withTags a (withoutTag tagToRemove (tags a))))
  | None => fileNode
  end.

(** [updateFn] of [handleRemoveTag]; a folder has no [analysis]. *)
Definition removeTagUpdateFn (tagToRemove : string) (n : TreeNode) : TreeNode :=
  match n with
  | File fileNode => File (removeTagFromFile tagToRemove fileNode)
  | Folder _ _ _ _ => n
  end.

Definition handleRemoveTag (fileId tagToRemove : string) : Js unit :=
  act (setTreeData
         (fun prev =>
            updateNodeInTree prev fileId (removeTagUpdateFn tagToRemove))) ;;;
  act (setSelectedFile
         (fun prev =>
            match prev with
            | Some p =>
                if String.eqb (id p) fileId
                then Some (removeTagFromFile tagToRemove p)
                else prev
            | None => prev
            end)).

(** [string.split(sep)] for a separator of one character. *)
Fixpoint splitOn (sep : Ascii.ascii) (s : string) : list string :=
  match s with
  | EmptyString => [ EmptyString ]
  | String c rest =>
      if Ascii.eqb c sep then EmptyString :: splitOn sep rest
      else match splitOn sep rest with
           | field :: fields => String c field :: fields
           | [] => [ String c EmptyString ]
           end
  end.

(** [fileContent] of [reader.onload]: [content.split(',')[1]] for an
    image, [content] otherwise; [None] is [undefined]. *)
Definition fileContentOf (fileType fileContent : string) : option string :=
  if isImageMime fileType
  then nth_error (splitOn ","%char fileContent) 1
  else Some fileContent.

(** [newFile] of [reader.onload]; [freshId] is the value of [newId()]. *)
Definition uploadedFile (freshId fileName fileType fileContent : string)
  : FileNode :=
  mkFileNode freshId fileName fileContent fileType None ("/" ++ fileName).

(** [reader.onload] for the result [readerResult] of the [FileReader].
    When the content is [undefined] the node that the source appends is
    not a [FileNode] of [types.ts]: the embedding has no computation for
    that case. *)
Definition readerOnLoad (freshId fileName fileType readerResult : string)
  : option (Js unit) :=
  match fileContentOf fileType readerResult with
  | Some fileContent =>
      Some (act (setTreeData
                   (fun prev =>
                      prev ++ [ File (uploadedFile freshId fileName fileType
                                        fileContent) ])))
  | None => None
  end.

(* ================================================================== *)
(** ** services/geminiService.ts: [analyzeFile] *)

(** [s.includes(sub)] on strings. *)
Fixpoint includesText (sub s : string) : bool :=
  if String.prefix sub s then true
  else match s with
       | EmptyString => false
       | String _ rest => includesText sub rest
       end.

(** [toLowerCase] on the letters A to Z; the other characters of a
    message do not lower to a letter of "quota". *)
Definition lowerChar (c : Ascii.ascii) : Ascii.ascii :=
  let n := Ascii.nat_of_ascii c in
  if Nat.leb 65 n && Nat.leb n 90 then Ascii.ascii_of_nat (n + 32) else c.

Fixpoint toLowerCase (s : string) : string :=
  match s with
  | EmptyString => EmptyString
  | String c rest => String (lowerChar c) (toLowerCase rest)
  end.

Definition quotaExceededMessage : string :=
  "API quota exceeded. Please check your plan and billing details. For continued use, you may need to enable billing on your project.".

Definition analysisFailedMessage : string :=
  "Failed to get analysis from Gemini API. Please check your API key and network connection.".

(** The test of both [catch] blocks of [geminiService.ts] on [message]. *)
Definition mentionsQuota (message : string) : bool :=
  includesText "RESOURCE_EXHAUSTED" message
  || includesText "429" message
  || includesText "quota" (toLowerCase message).

(** The test of the error banner of [App.tsx] for its billing hint:
    [error.toLowerCase().includes('quota')]. *)
Definition showsBillingHint (errorText : string) : bool :=
  includesText "quota" (toLowerCase errorText).

Section GeminiAnalyzer.

(** [ai.models.generateContent] on the request built from the file name,
    its content and its mime type; the response text, or an exception. *)
Variable generateAnalysis : string -> string -> string -> Result string.

(** [JSON.parse(jsonString) as AnalysisResult] *)
Variable JSON_parse_analysis : string -> Result AnalysisResult.

(** [error.toString()] of an error whose [message] is empty. *)
Variable emptyMessageText : string.

(** [error?.message || error.toString()] *)
Definition errorMessageOf (thrown : string) : string :=
  if String.eqb thrown "" then emptyMessageText else thrown.

Definition analyzeFile (fileName fileContent mime : string)
  : Result AnalysisResult :=
  try_catch
    (jsonString <- generateAnalysis fileName fileContent mime ;;
     result <- JSON_parse_analysis jsonString ;;
     Ok result)
    (fun thrown =>
       let message := errorMessageOf thrown in
       if mentionsQuota message
       then Throw quotaExceededMessage
       else Throw analysisFailedMessage).

End GeminiAnalyzer.

(** A file with an analysis that has two tags, alone in a tree. *)
Definition taggedFile : FileNode :=
  mkFileNode "t" "notes.txt" "Minutes of the meeting." "text/plain"
    (Some (mkAnalysisResult "Minutes." "minutes.txt" ["work"; "notes"]
             "Meeting Notes"))
    "/notes.txt".

(** The character [c] occurs in [s]. *)
Fixpoint hasChar (c : Ascii.ascii) (s : string) : bool :=
  match s with
  | EmptyString => false
  | String x rest => if Ascii.eqb x c then true else hasChar c rest
  end.

(* ================================================================== *)
(** ** components/FilePreview.tsx *)

(** The [src] of the image that [FilePreview] renders for an image file:
    [`data:${file.mimeType};base64,${file.content}`]. *)
Definition previewImageSrc (file : FileNode) : string :=
  "data:" ++ mimeType file ++ ";base64," ++ content file.

(** How long the final status of a propagation is displayed: 3000 ms when
    there was no other image to compare, 5000 ms otherwise. *)
Definition statusDisplayTime (otherImages : list FileNode) : nat :=
  match otherImages with
  | [] => 3000
  | _ :: _ => 5000
  end.

(** The error that [analyzeFile] throws for the exception [thrown] of
    the request or of the parsing. *)
Definition analyzerErrorFor (emptyMessageText thrown : string) : string :=
  if mentionsQuota (errorMessageOf emptyMessageText thrown)
  then quotaExceededMessage
  else analysisFailedMessage.

(* ================================================================== *)
(** * Properties *)

(** ** Induction on forests and the equations of the tree helpers *)

Lemma forest_ind (P : list TreeNode -> Prop) :
  P [] ->
  (forall f rest, P rest -> P (File f :: rest)) ->
  (forall i n p children rest,
      P children -> P rest -> P (Folder i n p children :: rest)) ->
  forall nodes, P nodes.
Proof.
  intros Hnil Hfile Hfolder.
  assert (Hnode : forall node rest, P rest -> P (node :: rest)).
  { fix IH 1. intros [f | i n p children] rest Hrest.
    - now apply Hfile.
    - apply Hfolder; [ | exact Hrest ].
      induction children as [ | c cs IHcs ]; [ exact Hnil | ].
      apply IH. exact IHcs. }
  induction nodes as [ | node rest IHrest ]; [ exact Hnil | now apply Hnode ].
Qed.

Lemma update_folder targetId updateFn i n p children rest :
  updateNodeInTree (Folder i n p children :: rest) targetId updateFn =
  (if String.eqb i targetId then updateFn (Folder i n p children)
   else Folder i n p (updateNodeInTree children targetId updateFn))
  :: updateNodeInTree rest targetId updateFn.
Proof. reflexivity. Qed.

Lemma update_file targetId updateFn f rest :
  updateNodeInTree (File f :: rest) targetId updateFn =
  (if String.eqb (id f) targetId then updateFn (File f) else File f)
  :: updateNodeInTree rest targetId updateFn.
Proof. reflexivity. Qed.

Lemma remove_folder targetId i n p children rest :
  removeNodeFromTree (Folder i n p children :: rest) targetId =
  if String.eqb i targetId then removeNodeFromTree rest targetId
  else Folder i n p (removeNodeFromTree children targetId)
       :: removeNodeFromTree rest targetId.
Proof. reflexivity. Qed.

Lemma remove_file targetId f rest :
  removeNodeFromTree (File f :: rest) targetId =
  if String.eqb (id f) targetId then removeNodeFromTree rest targetId
  else File f :: removeNodeFromTree rest targetId.
Proof. reflexivity. Qed.

Lemma find_folder targetId i n p children rest :
  findNodeInTree (Folder i n p children :: rest) targetId =
  if String.eqb i targetId then Some (Folder i n p children)
  else match findNodeInTree children targetId with
       | Some found => Some found
       | None => findNodeInTree rest targetId
       end.
Proof. reflexivity. Qed.

Lemma find_file targetId f rest :
  findNodeInTree (File f :: rest) targetId =
  if String.eqb (id f) targetId then Some (File f)
  else findNodeInTree rest targetId.
Proof. reflexivity. Qed.

Lemma images_folder i n p children rest :
  findAllImageFiles (Folder i n p children :: rest) =
  findAllImageFiles children ++ findAllImageFiles rest.
Proof. reflexivity. Qed.

Lemma images_file f rest :
  findAllImageFiles (File f :: rest) =
  if isImageMime (mimeType f) then f :: findAllImageFiles rest
  else findAllImageFiles rest.
Proof. reflexivity. Qed.

Lemma ids_folder i n p children rest :
  idsOf (Folder i n p children :: rest) = i :: idsOf children ++ idsOf rest.
Proof. reflexivity. Qed.

Lemma ids_file f rest : idsOf (File f :: rest) = id f :: idsOf rest.
Proof. reflexivity. Qed.

Lemma files_folder i n p children rest :
  filesOf (Folder i n p children :: rest) = filesOf children ++ filesOf rest.
Proof. reflexivity. Qed.

Lemma files_file f rest : filesOf (File f :: rest) = f :: filesOf rest.
Proof. reflexivity. Qed.

Ltac forest_induction nodes :=
  induction nodes as [ | ?f ?rest ?IHrest
                       | ?i ?n ?p ?children ?rest ?IHchildren ?IHrest ]
    using forest_ind.

Ltac tree_equations :=
  repeat first
    [ rewrite update_folder | rewrite update_file
    | rewrite remove_folder | rewrite remove_file
    | rewrite find_folder | rewrite find_file
    | rewrite images_folder | rewrite images_file
    | rewrite ids_folder | rewrite ids_file
    | rewrite files_folder | rewrite files_file ].

(** ** [findNodeInTree], [updateNodeInTree], [removeNodeFromTree] *)

Lemma find_none_iff nodes targetId :
  findNodeInTree nodes targetId = None <-> ~ In targetId (idsOf nodes).
Proof.
  forest_induction nodes; tree_equations.
  - simpl. tauto.
  - destruct (String.eqb_spec (id f) targetId) as [E | E]; simpl.
    + split; [ discriminate | intros H; exfalso; apply H; now left ].
    + rewrite IHrest. tauto.
  - destruct (String.eqb_spec i targetId) as [E | E]; simpl.
    + split; [ discriminate | intros H; exfalso; apply H; now left ].
    + rewrite in_app_iff.
      destruct (findNodeInTree children targetId) eqn:Ech.
      * split; [ discriminate | ].
        intros H. exfalso.
        assert (Hin : In targetId (idsOf children)).
        { destruct (in_dec string_dec targetId (idsOf children)) as [ | Hn ];
            [ assumption | ].
          apply IHchildren in Hn. discriminate. }
        tauto.
      * rewrite IHrest.
        assert (~ In targetId (idsOf children)) by now apply IHchildren.
        tauto.
Qed.

Lemma find_some_id nodes targetId node :
  findNodeInTree nodes targetId = Some node -> nodeId node = targetId.
Proof.
  forest_induction nodes; tree_equations.
  - discriminate.
  - destruct (String.eqb_spec (id f) targetId); [ | assumption ].
    intros [= <-]. assumption.
  - destruct (String.eqb_spec i targetId).
    + intros [= <-]. assumption.
    + destruct (findNodeInTree children targetId); [ | assumption ].
      intros [= <-]. now apply IHchildren.
Qed.

Lemma find_some_incl nodes targetId node :
  findNodeInTree nodes targetId = Some node ->
  incl (idsOfNode node) (idsOf nodes).
Proof.
  forest_induction nodes; tree_equations.
  - discriminate.
  - destruct (String.eqb_spec (id f) targetId).
    + intros [= <-]. simpl. intros x [<- | []]. now left.
    + intros H x Hx. right. now apply IHrest.
  - destruct (String.eqb_spec i targetId).
    + intros [= <-]. simpl. intros x [<- | Hx]; [ now left | ].
      right. apply in_or_app. now left.
    + destruct (findNodeInTree children targetId) eqn:Ech.
      * intros [= <-] x Hx. right. apply in_or_app. left. now apply IHchildren.
      * intros H x Hx. right. apply in_or_app. right. now apply IHrest.
Qed.

Lemma update_absent nodes targetId updateFn :
  ~ In targetId (idsOf nodes) ->
  updateNodeInTree nodes targetId updateFn = nodes.
Proof.
  forest_induction nodes; tree_equations; intros Hn.
  - reflexivity.
  - destruct (String.eqb_spec (id f) targetId) as [E | E].
    + exfalso. apply Hn. now left.
    + rewrite IHrest; [ reflexivity | ]. intros H. apply Hn. now right.
  - destruct (String.eqb_spec i targetId) as [E | E].
    + exfalso. apply Hn. now left.
    + rewrite IHchildren, IHrest; [ reflexivity | | ];
        intros H; apply Hn; right; apply in_or_app; tauto.
Qed.

Lemma remove_absent nodes targetId :
  ~ In targetId (idsOf nodes) ->
  removeNodeFromTree nodes targetId = nodes.
Proof.
  forest_induction nodes; tree_equations; intros Hn.
  - reflexivity.
  - destruct (String.eqb_spec (id f) targetId) as [E | E].
    + exfalso. apply Hn. now left.
    + rewrite IHrest; [ reflexivity | ]. intros H. apply Hn. now right.
  - destruct (String.eqb_spec i targetId) as [E | E].
    + exfalso. apply Hn. now left.
    + rewrite IHchildren, IHrest; [ reflexivity | | ];
        intros H; apply Hn; right; apply in_or_app; tauto.
Qed.

Lemma ids_remove_subset nodes targetId x :
  In x (idsOf (removeNodeFromTree nodes targetId)) ->
  In x (idsOf nodes) /\ x <> targetId.
Proof.
  forest_induction nodes; tree_equations.
  - intros [].
  - destruct (String.eqb_spec (id f) targetId) as [E | E].
    + intros H. apply IHrest in H. simpl. tauto.
    + rewrite ids_file. simpl. intros [<- | H]; [ tauto | ].
      apply IHrest in H. tauto.
  - destruct (String.eqb_spec i targetId) as [E | E].
    + intros H. apply IHrest in H. simpl. rewrite in_app_iff. tauto.
    + rewrite ids_folder. simpl. rewrite !in_app_iff.
      intros [<- | [H | H]]; [ tauto | | ].
      * apply IHchildren in H. tauto.
      * apply IHrest in H. tauto.
Qed.

Lemma find_after_remove nodes targetId :
  findNodeInTree (removeNodeFromTree nodes targetId) targetId = None.
Proof.
  apply find_none_iff. intros H. apply ids_remove_subset in H. tauto.
Qed.

Lemma files_ids nodes f : In f (filesOf nodes) -> In (id f) (idsOf nodes).
Proof.
  forest_induction nodes; tree_equations.
  - intros [].
  - intros [<- | H]; [ now left | right; auto ].
  - rewrite in_app_iff. intros [H | H]; right; apply in_or_app; auto.
Qed.

(** ** Lists of strings *)

Lemma includes_In xs x : includes xs x = true <-> In x xs.
Proof.
  induction xs as [ | y ys IH ]; simpl.
  - split; [ discriminate | tauto ].
  - destruct (String.eqb_spec y x) as [E | E].
    + split; [ now left | reflexivity ].
    + rewrite IH. split; [ now right | intros [ | ]; [ contradiction | assumption ] ].
Qed.

Lemma includes_not_In xs x : includes xs x = false <-> ~ In x xs.
Proof.
  rewrite <- includes_In. destruct (includes xs x); split; congruence.
Qed.

Lemma filter_keep {A : Type} (p : A -> bool) (l : list A) :
  (forall x, In x l -> p x = true) -> filter p l = l.
Proof.
  intros H. rewrite (filter_ext_in p (fun _ => true) l H). apply filter_true.
Qed.

Lemma filter_drop {A : Type} (p : A -> bool) (l : list A) :
  (forall x, In x l -> p x = false) -> filter p l = [].
Proof.
  intros H. rewrite (filter_ext_in p (fun _ => false) l H). apply filter_false.
Qed.

Lemma last_cons {A : Type} (x : A) (l : list A) (d : A) :
  last (x :: l) d = last l x.
Proof.
  revert x d. induction l as [ | a l IH ]; intros x d; [ reflexivity | ].
  change (last (a :: l) d = last (a :: l) x). now rewrite !IH.
Qed.

Lemma NoDup_app_disjoint {A : Type} (l1 l2 : list A) (x : A) :
  NoDup (l1 ++ l2) -> In x l1 -> ~ In x l2.
Proof.
  induction l1 as [ | a l1 IH ]; simpl; [ tauto | ].
  intros Hnd [<- | Hin] H2.
  - inversion Hnd as [ | ? ? Hna ]; subst. apply Hna. apply in_or_app. now right.
  - inversion Hnd; subst. now apply IH.
Qed.

(** ** What [removeNodeFromTree] keeps *)

Lemma subtreeIds_incl nodes targetId :
  incl (subtreeIds nodes targetId) (idsOf nodes).
Proof.
  unfold subtreeIds.
  destruct (findNodeInTree nodes targetId) eqn:E.
  - now apply find_some_incl with targetId.
  - intros x [].
Qed.

Lemma ids_remove_filter nodes targetId :
  uniqueIds nodes ->
  idsOf (removeNodeFromTree nodes targetId) =
  filter (fun m => negb (includes (subtreeIds nodes targetId) m)) (idsOf nodes).
Proof.
  unfold uniqueIds.
  forest_induction nodes; intros Hnd.
  - reflexivity.
  - rewrite ids_file in Hnd. inversion Hnd as [ | ? ? Hf Hrest ]; subst.
    unfold subtreeIds. tree_equations.
    destruct (String.eqb_spec (id f) targetId) as [E | E].
    + subst targetId. rewrite remove_absent by assumption.
      simpl. rewrite String.eqb_refl. simpl.
      symmetry. apply filter_keep. intros x Hx.
      destruct (String.eqb_spec (id f) x); [ subst; contradiction | reflexivity ].
    + rewrite ids_file. fold (subtreeIds rest targetId). simpl.
      assert (Hk : includes (subtreeIds rest targetId) (id f) = false).
      { apply includes_not_In. intros H. apply Hf.
        now apply (subtreeIds_incl rest targetId). }
      rewrite Hk. simpl. f_equal. now apply IHrest.
  - rewrite ids_folder in Hnd. inversion Hnd as [ | ? ? Hi Hsub ]; subst.
    assert (Hch : NoDup (idsOf children)) by now apply NoDup_app_remove_r in Hsub.
    assert (Hrs : NoDup (idsOf rest)) by now apply NoDup_app_remove_l in Hsub.
    unfold subtreeIds. tree_equations.
    destruct (String.eqb_spec i targetId) as [E | E].
    + subst targetId.
      rewrite remove_absent
        by (intros H; apply Hi; apply in_or_app; now right).
      simpl idsOfNode. fold (idsOf children).
      simpl. rewrite String.eqb_refl. simpl.
      rewrite filter_app.
      rewrite (filter_drop _ (idsOf children)); simpl.
      * symmetry. apply filter_keep. intros x Hx.
        destruct (String.eqb_spec i x) as [-> | _].
        { exfalso. apply Hi. apply in_or_app. now right. }
        apply negb_true_iff, includes_not_In. intros H.
        now apply (NoDup_app_disjoint _ _ x Hsub).
      * intros x Hx. destruct (String.eqb_spec i x); [ reflexivity | ].
        apply negb_false_iff, includes_In. assumption.
    + rewrite ids_folder. simpl.
      destruct (findNodeInTree children targetId) as [ node | ] eqn:Ech.
      * assert (Hin : In targetId (idsOf children)).
        { destruct (in_dec string_dec targetId (idsOf children)) as [ | Hn ];
            [ assumption | ].
          apply find_none_iff in Hn. congruence. }
        assert (Hsubset : incl (idsOfNode node) (idsOf children))
          by now apply find_some_incl with targetId.
        assert (Hk : includes (idsOfNode node) i = false).
        { apply includes_not_In. intros H. apply Hi.
          apply in_or_app. left. now apply Hsubset. }
        rewrite Hk. simpl. f_equal. rewrite filter_app. f_equal.
        -- rewrite IHchildren by assumption.
           unfold subtreeIds. now rewrite Ech.
        -- rewrite remove_absent
             by now apply (NoDup_app_disjoint _ _ targetId Hsub).
           symmetry. apply filter_keep. intros x Hx.
           apply negb_true_iff, includes_not_In. intros H.
           apply Hsubset in H.
           now apply (NoDup_app_disjoint _ _ x Hsub).
      * fold (subtreeIds rest targetId).
        assert (Hk : includes (subtreeIds rest targetId) i = false).
        { apply includes_not_In. intros H. apply Hi.
          apply in_or_app. right. now apply (subtreeIds_incl rest targetId). }
        rewrite Hk. simpl. f_equal. rewrite filter_app. f_equal.
        -- rewrite remove_absent by now apply find_none_iff.
           symmetry. apply filter_keep. intros x Hx.
           apply negb_true_iff, includes_not_In. intros H.
           apply (subtreeIds_incl rest targetId) in H.
           now apply (NoDup_app_disjoint _ _ x Hsub).
        -- now apply IHrest.
Qed.

Lemma files_remove_filter nodes targetId :
  uniqueIds nodes ->
  filesOf (removeNodeFromTree nodes targetId) =
  filter (fun f => negb (includes (subtreeIds nodes targetId) (id f)))
    (filesOf nodes).
Proof.
  unfold uniqueIds.
  forest_induction nodes; intros Hnd.
  - reflexivity.
  - rewrite ids_file in Hnd. inversion Hnd as [ | ? ? Hf Hrest ]; subst.
    unfold subtreeIds. tree_equations.
    destruct (String.eqb_spec (id f) targetId) as [E | E].
    + subst targetId. rewrite remove_absent by assumption.
      simpl. rewrite String.eqb_refl. simpl.
      symmetry. apply filter_keep. intros x Hx. apply files_ids in Hx.
      destruct (String.eqb_spec (id f) (id x)) as [E | ];
        [ rewrite E in Hf; contradiction | reflexivity ].
    + rewrite files_file. fold (subtreeIds rest targetId). simpl.
      assert (Hk : includes (subtreeIds rest targetId) (id f) = false).
      { apply includes_not_In. intros H. apply Hf.
        now apply (subtreeIds_incl rest targetId). }
      rewrite Hk. simpl. f_equal. now apply IHrest.
  - rewrite ids_folder in Hnd. inversion Hnd as [ | ? ? Hi Hsub ]; subst.
    assert (Hch : NoDup (idsOf children)) by now apply NoDup_app_remove_r in Hsub.
    assert (Hrs : NoDup (idsOf rest)) by now apply NoDup_app_remove_l in Hsub.
    unfold subtreeIds. tree_equations.
    destruct (String.eqb_spec i targetId) as [E | E].
    + subst targetId.
      rewrite remove_absent
        by (intros H; apply Hi; apply in_or_app; now right).
      simpl idsOfNode. fold (idsOf children).
      rewrite filter_app.
      rewrite (filter_drop _ (filesOf children)); simpl.
      * symmetry. apply filter_keep. intros x Hx. apply files_ids in Hx.
        destruct (String.eqb_spec i (id x)) as [E | _].
        { exfalso. apply Hi. apply in_or_app. right. now rewrite E. }
        apply negb_true_iff, includes_not_In. intros H.
        now apply (NoDup_app_disjoint _ _ (id x) Hsub).
      * intros x Hx. apply files_ids in Hx.
        destruct (String.eqb_spec i (id x)); [ reflexivity | ].
        apply negb_false_iff, includes_In. assumption.
    + rewrite files_folder.
      destruct (findNodeInTree children targetId) as [ node | ] eqn:Ech.
      * assert (Hin : In targetId (idsOf children)).
        { destruct (in_dec string_dec targetId (idsOf children)) as [ | Hn ];
            [ assumption | ].
          apply find_none_iff in Hn. congruence. }
        assert (Hsubset : incl (idsOfNode node) (idsOf children))
          by now apply find_some_incl with targetId.
        rewrite filter_app. f_equal.
        -- rewrite IHchildren by assumption.
           unfold subtreeIds. now rewrite Ech.
        -- rewrite remove_absent
             by now apply (NoDup_app_disjoint _ _ targetId Hsub).
           symmetry. apply filter_keep. intros x Hx. apply files_ids in Hx.
           apply negb_true_iff, includes_not_In. intros H.
           apply Hsubset in H.
           now apply (NoDup_app_disjoint _ _ (id x) Hsub).
      * fold (subtreeIds rest targetId).
        rewrite filter_app. f_equal.
        -- rewrite remove_absent by now apply find_none_iff.
           symmetry. apply filter_keep. intros x Hx. apply files_ids in Hx.
           apply negb_true_iff, includes_not_In. intros H.
           apply (subtreeIds_incl rest targetId) in H.
           now apply (NoDup_app_disjoint _ _ (id x) Hsub).
        -- now apply IHrest.
Qed.

Lemma subtree_removed nodes targetId node m :
  uniqueIds nodes ->
  findNodeInTree nodes targetId = Some node ->
  In m (idsOfNode node) ->
  findNodeInTree (removeNodeFromTree nodes targetId) m = None.
Proof.
  intros Hu Hfind Hm. apply find_none_iff.
  rewrite ids_remove_filter by assumption.
  rewrite filter_In. intros [_ Hk].
  apply negb_true_iff, includes_not_In in Hk. apply Hk.
  unfold subtreeIds. now rewrite Hfind.
Qed.

(** ** The claims on the tree store *)

(** C5. For a tree [T] with unique ids and an id [n] present in it,
    [removeNodeFromTree T n] has no node that [findNodeInTree] returns for
    [n]; when the removed node is a folder, no id of its subtree can be
    found any more; the ids that remain are those of [T] outside the
    removed subtree, in the order they had in [T], and so are the files,
    each as it was; and removing an id that is absent returns [T]
    itself. *)
Theorem C5_remove_node (T : list TreeNode) (n : string) :
  uniqueIds T ->
  In n (idsOf T) ->
  findNodeInTree (removeNodeFromTree T n) n = None
  /\ (forall i nm p children m,
         findNodeInTree T n = Some (Folder i nm p children) ->
         In m (idsOf children) ->
         findNodeInTree (removeNodeFromTree T n) m = None)
  /\ idsOf (removeNodeFromTree T n)
     = filter (fun m => negb (includes (subtreeIds T n) m)) (idsOf T)
  /\ filesOf (removeNodeFromTree T n)
     = filter (fun f => negb (includes (subtreeIds T n) (id f))) (filesOf T)
  /\ (forall absent, ~ In absent (idsOf T) -> removeNodeFromTree T absent = T).
Proof.
  intros Hu Hin.
  split; [ | split; [ | split; [ | split ] ] ].
  - apply find_after_remove.
  - intros i nm p children m Hfind Hm.
    apply (subtree_removed T n (Folder i nm p children) m Hu Hfind).
    simpl. now right.
  - now apply ids_remove_filter.
  - now apply files_remove_filter.
  - intros absent Habs. now apply remove_absent.
Qed.

Lemma C5_remove_node_witness :
  uniqueIds initialTreeData
  /\ In "1" (idsOf initialTreeData)
  /\ findNodeInTree (removeNodeFromTree initialTreeData "1") "2" = None
  /\ idsOf (removeNodeFromTree initialTreeData "1") = ["3"].
Proof.
  assert (Hu : uniqueIds initialTreeData).
  { unfold uniqueIds. simpl.
    repeat constructor; simpl; intuition discriminate. }
  assert (Hin : In "1" (idsOf initialTreeData)) by (simpl; tauto).
  destruct (C5_remove_node initialTreeData "1" Hu Hin)
    as (_ & Hsub & Hids & _ & _).
  split; [ exact Hu | split; [ exact Hin | split ] ].
  - apply (Hsub "1" "Documents" "/Documents"
             [ File (mkFileNode "2" "report.txt"
                "This is the final report for Project Alpha. It includes a summary of findings and recommendations."
                "text/plain" None "/Documents/report.txt") ]).
    + reflexivity.
    + simpl. tauto.
  - rewrite Hids. reflexivity.
Defined.

(** C6. For a tree [T], an id [n] that [findNodeInTree] does not find in
    [T] and any transform [f], [updateNodeInTree T n f] is [T]. *)
Theorem C6_update_absent (T : list TreeNode) (n : string)
  (f : TreeNode -> TreeNode) :
  findNodeInTree T n = None ->
  updateNodeInTree T n f = T.
Proof.
  intros H. apply update_absent. now apply find_none_iff.
Qed.

Lemma C6_update_absent_witness :
  findNodeInTree initialTreeData "4" = None
  /\ updateNodeInTree initialTreeData "4" (fun _ => Folder "" "" "" [])
     = initialTreeData.
Proof.
  split; [ reflexivity | ].
  apply (C6_update_absent initialTreeData "4"). reflexivity.
Defined.

(** ** Tags: [set_add], [new Set], [addTagToFile], [applyTag] *)

Lemma set_add_In s x y : In y (set_add s x) <-> In y s \/ y = x.
Proof.
  unfold set_add. destruct (includes s x) eqn:E.
  - apply includes_In in E. split; [ tauto | intros [ | -> ]; assumption ].
  - rewrite in_app_iff. simpl. intuition congruence.
Qed.

Lemma set_add_NoDup s x : NoDup s -> NoDup (set_add s x).
Proof.
  intros H. unfold set_add. destruct (includes s x) eqn:E; [ assumption | ].
  apply includes_not_In in E.
  apply NoDup_app; [ assumption | repeat constructor; simpl; tauto | ].
  intros a Ha [<- | []]. contradiction.
Qed.

Lemma fold_set_add_NoDup xs acc :
  NoDup acc -> NoDup (fold_left set_add xs acc).
Proof.
  revert acc. induction xs as [ | x xs IH ]; simpl; intros acc H.
  - assumption.
  - apply IH. now apply set_add_NoDup.
Qed.

Lemma fold_set_add_In xs acc y :
  In y (fold_left set_add xs acc) <-> In y acc \/ In y xs.
Proof.
  revert acc. induction xs as [ | x xs IH ]; simpl; intros acc.
  - tauto.
  - rewrite IH, set_add_In. intuition congruence.
Qed.

Lemma set_of_array_NoDup xs : NoDup (set_of_array xs).
Proof. apply fold_set_add_NoDup. constructor. Qed.

Lemma set_of_array_In xs y : In y (set_of_array xs) <-> In y xs.
Proof. unfold set_of_array. rewrite fold_set_add_In. simpl. tauto. Qed.

Lemma hasTag_In tag f : hasTag tag f = true <-> In tag (tagsOf f).
Proof.
  unfold hasTag, tagsOf. destruct (analysis f).
  - apply includes_In.
  - simpl. split; [ discriminate | tauto ].
Qed.

Lemma addTagToFile_id tag f : id (addTagToFile tag f) = id f.
Proof.
  unfold addTagToFile.
  destruct (includes _ tag); reflexivity.
Qed.

Lemma addTagToFile_tags tag f x :
  In x (tagsOf (addTagToFile tag f)) <-> In x (tagsOf f) \/ x = tag.
Proof.
  unfold addTagToFile, tagsOf.
  destruct (analysis f) as [ a | ] eqn:Ea; simpl.
  - destruct (includes (tags a) tag) eqn:E; simpl.
    + apply includes_In in E. rewrite Ea. intuition congruence.
    + rewrite in_app_iff. simpl. intuition congruence.
  - intuition congruence.
Qed.

Lemma addTagToFile_NoDup tag f :
  NoDup (tagsOf f) -> NoDup (tagsOf (addTagToFile tag f)).
Proof.
  unfold addTagToFile, tagsOf.
  destruct (analysis f) as [ a | ] eqn:Ea; simpl.
  - destruct (includes (tags a) tag) eqn:E; simpl.
    + now rewrite Ea.
    + intros H. apply includes_not_In in E.
      apply NoDup_app; [ assumption | repeat constructor; simpl; tauto | ].
      intros x Hx [<- | []]. contradiction.
  - intros _. repeat constructor. simpl. tauto.
Qed.

Lemma addTagToFile_idempotent tag f :
  addTagToFile tag (addTagToFile tag f) = addTagToFile tag f.
Proof.
  assert (H : hasTag tag (addTagToFile tag f) = true).
  { apply hasTag_In, addTagToFile_tags. now right. }
  remember (addTagToFile tag f) as g.
  unfold addTagToFile, hasTag in *.
  destruct (analysis g) as [ a | ]; [ | discriminate ].
  now rewrite H.
Qed.

Lemma applyTag_id tag f : id (applyTag tag f) = id f.
Proof. reflexivity. Qed.

Lemma applyTag_tags tag f x :
  In x (tagsOf (applyTag tag f)) <-> In x (tagsOf f) \/ x = tag.
Proof.
  unfold applyTag, tagsOf.
  destruct (analysis f) as [ a | ]; simpl.
  - rewrite set_of_array_In, in_app_iff. simpl. intuition congruence.
  - intuition congruence.
Qed.

Lemma applyTag_NoDup tag f : NoDup (tagsOf (applyTag tag f)).
Proof.
  unfold applyTag, tagsOf.
  destruct (analysis f) as [ a | ]; simpl.
  - apply set_of_array_NoDup.
  - repeat constructor. simpl. tauto.
Qed.

(** ** The files of an updated tree *)

Lemma addTagUpdateFn_fileLocal fileId tag :
  fileLocal (addTagUpdateFn fileId tag) (addTagWhere fileId tag).
Proof.
  split; [ | reflexivity ].
  intros f. unfold addTagWhere. simpl. now destruct (String.eqb (id f) fileId).
Qed.

Lemma files_update_Forall (P : FileNode -> Prop) nodes targetId updateFn g :
  fileLocal updateFn g ->
  (forall f, P f -> P (g f)) ->
  Forall P (filesOf nodes) ->
  Forall P (filesOf (updateNodeInTree nodes targetId updateFn)).
Proof.
  intros [Hfile Hfolder] Hg.
  forest_induction nodes; tree_equations; intros HP.
  - constructor.
  - inversion HP; subst.
    destruct (String.eqb (id f) targetId).
    + rewrite Hfile, files_file. constructor; auto.
    + rewrite files_file. constructor; auto.
  - apply Forall_app in HP. destruct HP as [Hc Hr].
    destruct (String.eqb i targetId).
    + rewrite Hfolder, files_folder. apply Forall_app. auto.
    + rewrite files_folder. apply Forall_app. auto.
Qed.

Lemma files_update_map nodes targetId updateFn g :
  fileLocal updateFn g ->
  uniqueIds nodes ->
  filesOf (updateNodeInTree nodes targetId updateFn)
  = map (fun f => if String.eqb (id f) targetId then g f else f) (filesOf nodes).
Proof.
  intros [Hfile Hfolder]. unfold uniqueIds.
  forest_induction nodes; tree_equations; intros Hnd.
  - reflexivity.
  - inversion Hnd; subst. simpl map.
    destruct (String.eqb (id f) targetId).
    + rewrite Hfile, files_file. f_equal. auto.
    + rewrite files_file. f_equal. auto.
  - inversion Hnd as [ | ? ? Hi Hsub ]; subst.
    assert (Hch : NoDup (idsOf children)) by now apply NoDup_app_remove_r in Hsub.
    assert (Hrs : NoDup (idsOf rest)) by now apply NoDup_app_remove_l in Hsub.
    rewrite map_app.
    destruct (String.eqb_spec i targetId) as [E | E].
    + rewrite Hfolder, files_folder. f_equal; [ | auto ].
      rewrite <- (map_id (filesOf children)) at 1.
      apply map_ext_in. intros f Hf.
      destruct (String.eqb_spec (id f) targetId) as [E' | ]; [ | reflexivity ].
      exfalso. apply Hi. apply in_or_app. left.
      rewrite E, <- E'. now apply files_ids.
    + rewrite files_folder. f_equal; auto.
Qed.

Lemma files_after_addTag T fileId tag :
  uniqueIds T ->
  filesOf (updateNodeInTree T fileId (addTagUpdateFn fileId tag))
  = map (addTagWhere fileId tag) (filesOf T).
Proof.
  intros Hu.
  rewrite (files_update_map T fileId _ _ (addTagUpdateFn_fileLocal fileId tag) Hu).
  apply map_ext. intros f. unfold addTagWhere.
  now destruct (String.eqb (id f) fileId).
Qed.

Lemma recursivelyUpdateTags_file ids tag f rest :
  recursivelyUpdateTags ids tag (File f :: rest)
  = (if includes ids (id f) then File (applyTag tag f) else File f)
    :: recursivelyUpdateTags ids tag rest.
Proof. reflexivity. Qed.

Lemma recursivelyUpdateTags_folder ids tag i n p children rest :
  recursivelyUpdateTags ids tag (Folder i n p children :: rest)
  = Folder i n p (recursivelyUpdateTags ids tag children)
    :: recursivelyUpdateTags ids tag rest.
Proof. reflexivity. Qed.

Lemma files_recursivelyUpdateTags ids tag nodes :
  filesOf (recursivelyUpdateTags ids tag nodes)
  = map (applyTagWhere ids tag) (filesOf nodes).
Proof.
  forest_induction nodes.
  - reflexivity.
  - rewrite recursivelyUpdateTags_file, files_file. simpl map.
    unfold applyTagWhere at 1.
    destruct (includes ids (id f)); rewrite files_file; now f_equal.
  - rewrite recursivelyUpdateTags_folder, !files_folder, map_app.
    now f_equal.
Qed.

Lemma recursivelyUpdateTags_ext ids ids' tag nodes :
  (forall x, In x ids <-> In x ids') ->
  recursivelyUpdateTags ids tag nodes = recursivelyUpdateTags ids' tag nodes.
Proof.
  intros H.
  forest_induction nodes.
  - reflexivity.
  - rewrite !recursivelyUpdateTags_file. f_equal; [ | assumption ].
    assert (E : includes ids (id f) = includes ids' (id f)).
    { destruct (includes ids' (id f)) eqn:E'.
      - apply includes_In, H, includes_In. assumption.
      - apply includes_not_In. rewrite H. now apply includes_not_In. }
    now rewrite E.
  - rewrite !recursivelyUpdateTags_folder. now f_equal; [ f_equal | ].
Qed.

Lemma recursivelyUpdateTags_nil tag nodes :
  recursivelyUpdateTags [] tag nodes = nodes.
Proof.
  forest_induction nodes.
  - reflexivity.
  - rewrite recursivelyUpdateTags_file. simpl. now f_equal.
  - rewrite recursivelyUpdateTags_folder. now f_equal; [ f_equal | ].
Qed.

(** ** The scenarios of the specification, by evaluation *)

Example scenario_match :
  let w := snd (propagateTag (fun _ _ => Ok true) "a" "cat"
                  (freshWorld imagesTree)) in
  map tagsOf (filesOf (treeData w)) = [ ["cat"]; ["cat"] ]
  /\ propagationStatus w = mkPropagationStatus true (MsgApplied 1).
Proof. vm_compute. split; reflexivity. Qed.

Example scenario_no_match :
  let w := snd (propagateTag (fun _ _ => Ok false) "a" "cat"
                  (freshWorld imagesTree)) in
  map analysis (filesOf (treeData w))
  = [ Some (mkAnalysisResult "" "" ["cat"] "Unknown"); None ]
  /\ propagationStatus w = mkPropagationStatus true (MsgApplied 0).
Proof. vm_compute. split; reflexivity. Qed.

Example scenario_remove_folder :
  removeNodeFromTree
    (Folder "0" "Before" "/Before" [] :: imagesTree
     ++ [ Folder "9" "After" "/After" [] ]) "3"
  = [ Folder "0" "Before" "/Before" []; Folder "9" "After" "/After" [] ].
Proof. reflexivity. Qed.

(** ** The comparison loop *)

Section Scan.

Variable compareImagesFn : FileNode -> FileNode -> Result bool.

Lemma compareLoop_spec sourceFile n targets :
  forall i updatedCount updatedImageIds w,
  exists w',
    compareLoop compareImagesFn sourceFile n i targets
      updatedCount updatedImageIds w
    = (Ok (updatedCount
           + length (matchesOf compareImagesFn sourceFile targets),
           fold_left set_add
             (map id (matchesOf compareImagesFn sourceFile targets))
             updatedImageIds),
       w')
    /\ treeData w' = treeData w
    /\ sameRuntime w w'
    /\ compareCalls w'
       = compareCalls w ++ map (pair sourceFile) targets.
Proof.
  induction targets as [ | targetFile rest IH ];
    intros i updatedCount updatedImageIds w.
  - exists w. simpl. unfold ret, sameRuntime.
    rewrite Nat.add_0_r, app_nil_r. tauto.
  - unfold matchesOf in *. simpl.
    unfold seq, tryCatch, act, callCompareImages, ret.
    destruct (compareImagesFn sourceFile targetFile) as [ [ | ] | err ];
      simpl;
      match goal with
      | |- context [compareLoop _ _ _ ?i' rest ?c ?s ?v] =>
          destruct (IH i' c s v) as (w' & Hrun & Htree & Hsame & Hcalls)
      end;
      exists w'; rewrite Hrun, Htree, Hcalls;
      unfold sameRuntime in *; simpl in *;
      rewrite <- app_assoc; simpl;
      rewrite ?Nat.add_succ_r; tauto.
Qed.

End Scan.

Section Propagation.

Variable compareImagesFn : FileNode -> FileNode -> Result bool.

Lemma scanAndApply_spec otherImages sourceFile newTag w :
  exists w',
    scanAndApply compareImagesFn otherImages sourceFile newTag w = (Ok tt, w')
    /\ treeData w'
       = recursivelyUpdateTags
           (map id (matchesOf compareImagesFn sourceFile otherImages))
           newTag (treeData w)
    /\ propagationStatus w'
       = mkPropagationStatus true
           (match otherImages with
            | [] => MsgNoOtherImages
            | _ :: _ =>
                MsgApplied
                  (length (matchesOf compareImagesFn sourceFile otherImages))
            end)
    /\ compareCalls w'
       = compareCalls w ++ map (pair sourceFile) otherImages
    /\ clock w' = clock w
    /\ storageWrites w' = storageWrites w
    /\ analyzerCalls w' = analyzerCalls w.
Proof.
  unfold scanAndApply.
  destruct otherImages as [ | c cs ].
  - simpl. unfold seq, act, setTimeout, ret. simpl.
    eexists. split; [ reflexivity | ]. simpl.
    rewrite recursivelyUpdateTags_nil, app_nil_r. tauto.
  - remember (c :: cs) as candidates eqn:Ecands.
    replace (Nat.eqb (length candidates) 0) with false
      by (subst candidates; reflexivity).
    unfold seq at 1.
    destruct (compareLoop_spec compareImagesFn sourceFile
                (length candidates) candidates 0 0 [] w)
      as (w1 & Hrun & Htree & Hsame & Hcalls).
    rewrite Hrun. simpl fst. simpl snd.
    fold (set_of_array
            (map id (matchesOf compareImagesFn sourceFile candidates))).
    set (ids := set_of_array
                  (map id (matchesOf compareImagesFn sourceFile candidates))).
    assert (Hext : forall x,
               In x ids
               <-> In x (map id (matchesOf compareImagesFn sourceFile
                                   candidates)))
      by (intros x; apply set_of_array_In).
    destruct Hsame as (Hclock & _ & _ & Hwrites & Hanalyzer).
    unfold seq, act, setTimeout, ret.
    destruct (Nat.ltb 0 (length ids)) eqn:Elen; simpl;
      (eexists; split; [ reflexivity | ]); simpl;
      rewrite Htree, Hcalls, Hclock, Hwrites, Hanalyzer;
      subst candidates; repeat split.
    + apply recursivelyUpdateTags_ext. exact Hext.
    + apply Nat.ltb_ge in Elen.
      assert (Hnil : ids = []) by (destruct ids; [ reflexivity | simpl in Elen; lia ]).
      rewrite <- (recursivelyUpdateTags_ext ids _ newTag _ Hext).
      rewrite Hnil. symmetry. apply recursivelyUpdateTags_nil.
Qed.

Lemma propagate_spec treeData0 sourceFile newTag w :
  exists w',
    propagateTagToSimilarImages compareImagesFn treeData0 sourceFile newTag w
    = (Ok tt, w')
    /\ treeData w'
       = recursivelyUpdateTags
           (map id (matchesOf compareImagesFn sourceFile
                      (otherImagesOf treeData0 sourceFile newTag)))
           newTag (treeData w)
    /\ propagationStatus w'
       = mkPropagationStatus true
           (match otherImagesOf treeData0 sourceFile newTag with
            | [] => MsgNoOtherImages
            | _ :: _ =>
                MsgApplied
                  (length (matchesOf compareImagesFn sourceFile
                             (otherImagesOf treeData0 sourceFile newTag)))
            end)
    /\ compareCalls w'
       = compareCalls w
         ++ map (pair sourceFile) (otherImagesOf treeData0 sourceFile newTag)
    /\ clock w' = clock w
    /\ storageWrites w' = storageWrites w
    /\ analyzerCalls w' = analyzerCalls w.
Proof.
  unfold propagateTagToSimilarImages, seq at 1, act.
  destruct (scanAndApply_spec
              (otherImagesOf treeData0 sourceFile newTag) sourceFile newTag
              (setPropagationStatus (mkPropagationStatus true MsgScanning) w))
    as (w' & Hrun & H).
  exists w'. split; [ exact Hrun | exact H ].
Qed.

End Propagation.

(** ** The timer table *)

Lemma setClock_timers_same c w : setTimers (timers w) (setClock c w) = setClock c w.
Proof. destruct w; reflexivity. Qed.

Lemma setClock_same w : setClock (clock w) w = w.
Proof. destruct w; reflexivity. Qed.

Section EventLoop.

Variable compareImagesFn : FileNode -> FileNode -> Result bool.

Lemma tick_idle w :
  Forall (fun t => S (clock w) < due t) (timers w) ->
  tick compareImagesFn w = (Ok tt, setClock (S (clock w)) w).
Proof.
  intros H. unfold tick.
  rewrite (filter_drop _ (timers w)).
  - rewrite (filter_keep _ (timers w)).
    + simpl. unfold ret. now rewrite setClock_timers_same.
    + intros x Hx. rewrite Forall_forall in H. specialize (H x Hx).
      apply negb_true_iff, Nat.leb_gt. exact H.
  - intros x Hx. rewrite Forall_forall in H. specialize (H x Hx).
    apply Nat.leb_gt. exact H.
Qed.

Lemma advance_idle ms :
  forall w,
    Forall (fun t => clock w + ms < due t) (timers w) ->
    advance compareImagesFn ms w = (Ok tt, setClock (clock w + ms) w).
Proof.
  induction ms as [ | ms IH ]; intros w H.
  - simpl. unfold ret. now rewrite Nat.add_0_r, setClock_same.
  - simpl. unfold seq. rewrite tick_idle.
    + rewrite IH.
      * destruct w; simpl. unfold setClock; simpl.
        now rewrite Nat.add_succ_r.
      * destruct w; simpl in *.
        eapply Forall_impl; [ | exact H ]. simpl. intros; lia.
    + eapply Forall_impl; [ | exact H ]. simpl. intros; lia.
Qed.

(** The last timer of the table fires alone when its delay has passed. *)
Lemma advance_fires_last ms :
  forall w earlier t,
    timers w = earlier ++ [t] ->
    due t = clock w + S ms ->
    Forall (fun x => clock w + S ms < due x) earlier ->
    advance compareImagesFn (S ms) w
    = fireAll compareImagesFn [t]
        (setTimers earlier (setClock (clock w + S ms) w)).
Proof.
  induction ms as [ | ms IH ]; intros w earlier t Htimers Hdue Hearlier.
  - change (advance compareImagesFn 1 w)
      with ((tick compareImagesFn ;;; ret tt) w).
    unfold seq.
    assert (Hfire :
              tick compareImagesFn w
              = fireAll compareImagesFn [t]
                  (setTimers earlier (setClock (S (clock w)) w))).
    { unfold tick. rewrite Htimers, !filter_app.
      rewrite (filter_drop _ earlier), (filter_keep _ earlier).
      - simpl. replace (Nat.leb (due t) (S (clock w))) with true
          by (symmetry; apply Nat.leb_le; lia).
        simpl. now rewrite app_nil_r.
      - intros x Hx. rewrite Forall_forall in Hearlier.
        specialize (Hearlier x Hx). apply negb_true_iff, Nat.leb_gt. lia.
      - intros x Hx. rewrite Forall_forall in Hearlier.
        specialize (Hearlier x Hx). apply Nat.leb_gt. lia. }
    rewrite Hfire. replace (clock w + 1) with (S (clock w)) by lia.
    generalize (fireAll compareImagesFn [t]
                  (setTimers earlier (setClock (S (clock w)) w))).
    intros [ [ [] | e ] w' ]; reflexivity.
  - change (advance compareImagesFn (S (S ms)) w)
      with ((tick compareImagesFn ;;; advance compareImagesFn (S ms)) w).
    unfold seq. rewrite tick_idle.
    + rewrite (IH (setClock (S (clock w)) w) earlier t).
      * destruct w; simpl. unfold setClock, setTimers; simpl.
        repeat rewrite Nat.add_succ_r. reflexivity.
      * destruct w; simpl in *. exact Htimers.
      * destruct w; simpl in *. lia.
      * destruct w; simpl in *.
        eapply Forall_impl; [ | exact Hearlier ]. simpl. intros; lia.
    + rewrite Htimers. apply Forall_app. split.
      * eapply Forall_impl; [ | exact Hearlier ]. simpl. intros; lia.
      * repeat constructor. lia.
Qed.

End EventLoop.

(** ** [handleAddTag] and a full run of the workflow *)

Lemma handleAddTag_spec fileId newTag w :
  exists w',
    handleAddTag fileId newTag w = (Ok tt, w')
    /\ treeData w'
       = updateNodeInTree (treeData w) fileId (addTagUpdateFn fileId newTag)
    /\ sameRuntime w w'
    /\ compareCalls w' = compareCalls w
    /\ propagationStatus w' = propagationStatus w
    /\ console w' = console w.
Proof.
  unfold handleAddTag, sameRuntime.
  destruct (lastUpdatedNode fileId newTag (updateFnCalls (treeData w) fileId));
    eexists; (split; [ reflexivity | ]); simpl; tauto.
Qed.

Section Run.

Variable compareImagesFn : FileNode -> FileNode -> Result bool.

Lemma propagateTag_run fileId tag w sourceFile :
  findNodeInTree (treeData w) fileId = Some (File sourceFile) ->
  isImageMime (mimeType sourceFile) = true ->
  Forall (fun t => clock w + 100 < due t) (timers w) ->
  exists w',
    propagateTag compareImagesFn fileId tag w = (Ok tt, w')
    /\ treeData w'
       = recursivelyUpdateTags
           (map id (matchesOf compareImagesFn sourceFile
                      (otherImagesOf (treeData w) sourceFile tag)))
           tag
           (updateNodeInTree (treeData w) fileId (addTagUpdateFn fileId tag))
    /\ propagationStatus w'
       = mkPropagationStatus true
           (match otherImagesOf (treeData w) sourceFile tag with
            | [] => MsgNoOtherImages
            | _ :: _ =>
                MsgApplied
                  (length (matchesOf compareImagesFn sourceFile
                             (otherImagesOf (treeData w) sourceFile tag)))
            end)
    /\ compareCalls w'
       = compareCalls w
         ++ map (pair sourceFile) (otherImagesOf (treeData w) sourceFile tag)
    /\ storageWrites w' = storageWrites w
    /\ analyzerCalls w' = analyzerCalls w.
Proof.
  intros Hfind Himage Hidle.
  unfold propagateTag, handlePropagateTag. rewrite Hfind, Himage.
  destruct (handleAddTag_spec fileId tag w)
    as (w1 & Hadd & Htree1 & (Hclock1 & Htimers1 & Hnext1 & Hwrites1 & Hanalyzer1)
        & Hcalls1 & _ & _).
  unfold seq at 1. unfold seq at 1. rewrite Hadd.
  unfold seq at 1. unfold setTimeout at 1. unfold ret at 1.
  set (timer := mkTimer (nextTimerId w1) (clock w1 + 100)
                  (StartPropagation (treeData w) fileId tag)).
  set (w2 := setNextTimerId (S (nextTimerId w1))
               (setTimers (timers w1 ++ [timer]) w1)).
  rewrite (advance_fires_last compareImagesFn 99 w2 (timers w1) timer);
    [ | reflexivity | reflexivity
      | subst w2; simpl; rewrite Htimers1, Hclock1; exact Hidle ].
  set (w3 := setTimers (timers w1) (setClock (clock w2 + 100) w2)).
  unfold fireAll, seq, tryCatch. simpl callback. unfold runCallback.
  rewrite Hfind.
  destruct (propagate_spec compareImagesFn (treeData w) sourceFile tag w3)
    as (w' & Hrun & Htree & Hstatus & Hcalls & _ & Hwrites & Hanalyzer).
  rewrite Hrun. exists w'. split; [ reflexivity | ].
  rewrite Htree, Hstatus, Hcalls, Hwrites, Hanalyzer.
  subst w3 w2. simpl. rewrite Htree1, Hcalls1, Hwrites1, Hanalyzer1.
  tauto.
Qed.

End Run.

(** ** Files, images and candidates *)

Lemma find_file_in_files nodes targetId f :
  findNodeInTree nodes targetId = Some (File f) -> In f (filesOf nodes).
Proof.
  forest_induction nodes; tree_equations.
  - discriminate.
  - destruct (String.eqb (id f0) targetId).
    + intros [= ->]. now left.
    + intros H. right. auto.
  - destruct (String.eqb i targetId); [ discriminate | ].
    intros H. apply in_or_app.
    destruct (findNodeInTree children targetId) as [ found | ].
    + left. apply IHchildren. exact H.
    + right. auto.
Qed.

Lemma images_are_files nodes :
  findAllImageFiles nodes
  = filter (fun f => isImageMime (mimeType f)) (filesOf nodes).
Proof.
  forest_induction nodes; tree_equations.
  - reflexivity.
  - simpl. destruct (isImageMime (mimeType f)); now f_equal.
  - rewrite filter_app. now f_equal.
Qed.

Lemma otherImages_in_files treeData0 sourceFile tag c :
  In c (otherImagesOf treeData0 sourceFile tag) -> In c (filesOf treeData0).
Proof.
  unfold otherImagesOf. rewrite images_are_files, !filter_In. tauto.
Qed.

Lemma NoDup_map_filter {A B : Type} (g : A -> B) (p : A -> bool) (l : list A) :
  NoDup (map g l) -> NoDup (map g (filter p l)).
Proof.
  induction l as [ | a l IH ]; simpl; intros H; [ constructor | ].
  inversion H as [ | ? ? Ha Hl ]; subst.
  destruct (p a); simpl; [ constructor | ]; auto.
  intros Hin. apply Ha. apply in_map_iff in Hin.
  destruct Hin as (x & Hx & Hin). apply filter_In in Hin.
  apply in_map_iff. exists x. tauto.
Qed.

Lemma unique_file_ids nodes : uniqueIds nodes -> NoDup (map id (filesOf nodes)).
Proof.
  unfold uniqueIds.
  forest_induction nodes; tree_equations; intros Hnd.
  - constructor.
  - inversion Hnd as [ | ? ? Hf Hrest ]; subst. simpl. constructor; auto.
    intros Hin. apply Hf. apply in_map_iff in Hin.
    destruct Hin as (x & <- & Hx). now apply files_ids.
  - inversion Hnd as [ | ? ? Hi Hsub ]; subst.
    rewrite map_app. apply NoDup_app.
    + apply IHchildren. now apply NoDup_app_remove_r in Hsub.
    + apply IHrest. now apply NoDup_app_remove_l in Hsub.
    + intros x Hx Hx'. apply in_map_iff in Hx, Hx'.
      destruct Hx as (a & <- & Ha). destruct Hx' as (b & Eb & Hb).
      apply (NoDup_app_disjoint _ _ (id a) Hsub).
      * now apply files_ids.
      * rewrite <- Eb. now apply files_ids.
Qed.

Lemma Permutation_filter_same {A : Type} (p : A -> bool) (l l' : list A) :
  Permutation l l' -> Permutation (filter p l) (filter p l').
Proof.
  induction 1 as [ | x l l' _ IH | x y l | l l' l'' _ IH1 _ IH2 ]; simpl.
  - constructor.
  - destruct (p x); [ now constructor | assumption ].
  - destruct (p x), (p y); try apply Permutation_refl.
    + apply perm_swap.
  - now transitivity (filter p l').
Qed.

(** The tag on a file after both updates of a run. *)
Lemma hasTag_after_run fileId tag ids f :
  hasTag tag (applyTagWhere ids tag (addTagWhere fileId tag f)) = true
  <-> id f = fileId \/ In (id f) ids \/ hasTag tag f = true.
Proof.
  unfold applyTagWhere, addTagWhere.
  destruct (String.eqb_spec (id f) fileId) as [E | E].
  - rewrite addTagToFile_id.
    destruct (includes ids (id f)); rewrite hasTag_In.
    + rewrite applyTag_tags. tauto.
    + rewrite addTagToFile_tags. tauto.
  - destruct (includes ids (id f)) eqn:Ei; rewrite !hasTag_In.
    + apply includes_In in Ei. rewrite applyTag_tags. tauto.
    + apply includes_not_In in Ei. tauto.
Qed.

Lemma id_after_run fileId tag ids f :
  id (applyTagWhere ids tag (addTagWhere fileId tag f)) = id f.
Proof.
  unfold applyTagWhere, addTagWhere.
  destruct (String.eqb (id f) fileId); rewrite ?addTagToFile_id;
    destruct (includes ids (id f)); rewrite ?applyTag_id, ?addTagToFile_id;
    reflexivity.
Qed.

Lemma carriers_after_run T fileId tag ids sourceFile i :
  uniqueIds T ->
  findNodeInTree T fileId = Some (File sourceFile) ->
  (forall x, In x ids -> exists c, In c (filesOf T) /\ id c = x) ->
  carriesTag tag
    (recursivelyUpdateTags ids tag
       (updateNodeInTree T fileId (addTagUpdateFn fileId tag))) i
  <-> i = fileId \/ In i ids \/ carriesTag tag T i.
Proof.
  intros Hu Hfind Hids. unfold carriesTag.
  rewrite files_recursivelyUpdateTags.
  rewrite (files_after_addTag T fileId tag Hu).
  rewrite map_map. split.
  - intros (f' & Hin & Hid & Htag).
    apply in_map_iff in Hin. destruct Hin as (f & <- & Hf).
    rewrite id_after_run in Hid. apply hasTag_after_run in Htag.
    subst i. destruct Htag as [ | [ | Htag ] ]; [ tauto | tauto | ].
    right. right. exists f. tauto.
  - assert (Hgo : forall f, In f (filesOf T) -> id f = i ->
                    id f = fileId \/ In (id f) ids \/ hasTag tag f = true ->
                    exists f',
                      In f' (map (fun x => applyTagWhere ids tag
                                             (addTagWhere fileId tag x))
                               (filesOf T))
                      /\ id f' = i /\ hasTag tag f' = true).
    { intros f Hf Hid Hcase.
      exists (applyTagWhere ids tag (addTagWhere fileId tag f)).
      split; [ | split ].
      - apply in_map_iff. exists f. split; [ reflexivity | exact Hf ].
      - rewrite <- Hid. apply id_after_run.
      - apply hasTag_after_run. exact Hcase. }
    intros [ -> | [ Hi | (f & Hf & Hid & Htag) ] ].
    + apply (Hgo sourceFile).
      * now apply find_file_in_files with fileId.
      * apply (find_some_id _ _ _ Hfind).
      * left. apply (find_some_id _ _ _ Hfind).
    + destruct (Hids i Hi) as (c & Hc & Hcid).
      apply (Hgo c Hc Hcid). right. left. now rewrite Hcid.
    + apply (Hgo f Hf Hid). tauto.
Qed.

(** ** The claims on the propagation workflow *)

Section PropagationClaims.

Variable compareImagesFn : FileNode -> FileNode -> Result bool.

(** C1. Take a tree with unique ids whose node [fileId] is the image file
    [S], a tag, and a comparator; let [M] be the gathered candidates for
    which the comparator returns [true] (the others may return [false]
    or throw, in any pattern). A run of the workflow from a world in
    which no other timer is due within its 100 ms returns normally, and
    afterwards a file carries the tag exactly when it is [S], or is in
    [M], or carried the tag before, and every other file of the tree is
    still there as it was; the members of [M] have distinct ids; a
    reported count of updated images is the size of [M], and one is
    reported whenever there is a candidate (with no candidate, and so no
    match, the status says that there was no other image); and scanning
    the candidates in another order gives the same tree and the same
    final status. *)
Theorem C1_propagation_correctness (w : World) (fileId tag : string)
  (S : FileNode) :
  uniqueIds (treeData w) ->
  findNodeInTree (treeData w) fileId = Some (File S) ->
  isImageMime (mimeType S) = true ->
  Forall (fun t => clock w + 100 < due t) (timers w) ->
  let candidates := otherImagesOf (treeData w) S tag in
  let M := matchesOf compareImagesFn S candidates in
  exists w',
    propagateTag compareImagesFn fileId tag w = (Ok tt, w')
    /\ (forall i,
           carriesTag tag (treeData w') i
           <-> i = fileId \/ In i (map id M) \/ carriesTag tag (treeData w) i)
    /\ (forall f,
           In f (filesOf (treeData w)) ->
           id f <> fileId -> ~ In (id f) (map id M) ->
           In f (filesOf (treeData w')))
    /\ NoDup (map id M)
    /\ (forall k,
           message (propagationStatus w') = MsgApplied k -> k = length M)
    /\ (candidates <> [] ->
        message (propagationStatus w') = MsgApplied (length M))
    /\ (candidates = [] ->
        message (propagationStatus w') = MsgNoOtherImages /\ M = [])
    /\ (forall candidates' v,
           Permutation candidates candidates' ->
           exists v1 v2,
             scanAndApply compareImagesFn candidates S tag v = (Ok tt, v1)
             /\ scanAndApply compareImagesFn candidates' S tag v = (Ok tt, v2)
             /\ treeData v1 = treeData v2
             /\ propagationStatus v1 = propagationStatus v2).
Proof.
  intros Hu Hfind Himage Hidle candidates M.
  destruct (propagateTag_run compareImagesFn fileId tag w S Hfind Himage Hidle)
    as (w' & Hrun & Htree & Hstatus & _).
  fold candidates in Htree, Hstatus. fold M in Htree, Hstatus.
  exists w'. split; [ exact Hrun | ].
  split; [ | split; [ | split; [ | split; [ | split; [ | split ] ] ] ] ].
  - intros i. rewrite Htree.
    apply (carriers_after_run (treeData w) fileId tag (map id M) S i Hu Hfind).
    intros x Hx. apply in_map_iff in Hx. destruct Hx as (c & Hc & Hin).
    exists c. split; [ | exact Hc ].
    apply filter_In in Hin. destruct Hin as [Hin _].
    now apply otherImages_in_files in Hin.
  - intros f Hf Hsource HnotM. rewrite Htree.
    rewrite files_recursivelyUpdateTags, (files_after_addTag _ _ _ Hu), map_map.
    apply in_map_iff. exists f. split; [ | exact Hf ].
    unfold applyTagWhere, addTagWhere.
    destruct (String.eqb_spec (id f) fileId); [ contradiction | ].
    apply includes_not_In in HnotM. now rewrite HnotM.
  - unfold M, matchesOf, candidates, otherImagesOf.
    rewrite images_are_files.
    do 3 apply NoDup_map_filter. now apply unique_file_ids.
  - intros k Hk. rewrite Hstatus in Hk. simpl in Hk.
    destruct candidates; [ discriminate | ]. now injection Hk as <-.
  - intros Hne. rewrite Hstatus. simpl.
    destruct candidates; [ contradiction | reflexivity ].
  - intros Hnil. rewrite Hstatus. unfold M. rewrite Hnil. split; reflexivity.
  - intros candidates' v Hperm.
    destruct (scanAndApply_spec compareImagesFn candidates S tag v)
      as (v1 & Hrun1 & Htree1 & Hstatus1 & _).
    destruct (scanAndApply_spec compareImagesFn candidates' S tag v)
      as (v2 & Hrun2 & Htree2 & Hstatus2 & _).
    exists v1, v2. split; [ exact Hrun1 | split; [ exact Hrun2 | ] ].
    assert (HpermM : Permutation (matchesOf compareImagesFn S candidates)
                       (matchesOf compareImagesFn S candidates'))
      by now apply Permutation_filter_same.
    split.
    + rewrite Htree1, Htree2. apply recursivelyUpdateTags_ext.
      intros x. split; apply Permutation_in, Permutation_map;
        [ exact HpermM | now apply Permutation_sym ].
    + rewrite Hstatus1, Hstatus2.
      rewrite (Permutation_length HpermM).
      destruct candidates as [ | c cs ].
      * apply Permutation_nil in Hperm. now rewrite Hperm.
      * destruct candidates' as [ | c' cs' ]; [ | reflexivity ].
        apply Permutation_sym, Permutation_nil in Hperm. discriminate.
Qed.

End PropagationClaims.

Lemma C1_propagation_correctness_witness :
  uniqueIds imagesTree
  /\ findNodeInTree imagesTree "a" = Some (File imageA)
  /\ isImageMime (mimeType imageA) = true
  /\ Forall (fun t => 0 + 100 < due t) []
  /\ exists w',
       propagateTag (fun _ _ => Ok true) "a" "cat" (freshWorld imagesTree)
       = (Ok tt, w')
       /\ carriesTag "cat" (treeData w') "b"
       /\ message (propagationStatus w') = MsgApplied 1.
Proof.
  assert (Hu : uniqueIds imagesTree).
  { unfold uniqueIds. simpl. repeat constructor; simpl; intuition discriminate. }
  split; [ exact Hu | ].
  split; [ reflexivity | ]. split; [ reflexivity | ]. split; [ constructor | ].
  destruct (C1_propagation_correctness (fun _ _ => Ok true)
              (freshWorld imagesTree) "a" "cat" imageA
              Hu eq_refl eq_refl (Forall_nil _))
    as (w' & Hrun & Hcarry & _ & _ & _ & Hcount & _).
  exists w'. split; [ exact Hrun | split ].
  - apply Hcarry. right. left. simpl. tauto.
  - apply Hcount. discriminate.
Defined.

(** C2 (the run of the specification's scenario, evaluated). After
    [handlePropagateTag "a" "cat"] on the two-image tree, the tree holds
    file "a" with the tag, yet the one comparator call of the scan got as
    its source the file "a" of the tree captured before the tag was added,
    which has no analysis and so no tag. *)
Theorem C2_scan_reads_captured_tree :
  let w := snd (propagateTag (fun _ _ => Ok true) "a" "cat"
                  (freshWorld imagesTree)) in
  compareCalls w = [ (imageA, imageB) ]
  /\ hasTag "cat" imageA = false
  /\ findNodeInTree (treeData w) "a" = Some (File (addTagToFile "cat" imageA))
  /\ hasTag "cat" (addTagToFile "cat" imageA) = true.
Proof. vm_compute. repeat split. Qed.

Lemma isMatchResult_failureAsNoMatch compareFn sourceFile c :
  isMatchResult (failureAsNoMatch compareFn sourceFile c)
  = isMatchResult (compareFn sourceFile c).
Proof.
  unfold failureAsNoMatch. now destruct (compareFn sourceFile c) as [ [ | ] | ].
Qed.

Lemma matchesOf_failureAsNoMatch compareFn sourceFile candidates :
  matchesOf (failureAsNoMatch compareFn) sourceFile candidates
  = matchesOf compareFn sourceFile candidates.
Proof.
  unfold matchesOf. apply filter_ext. intros c.
  apply isMatchResult_failureAsNoMatch.
Qed.

(** C3. Whatever the comparator does on each candidate, the scan returns
    normally and has called the comparator on every candidate, in order;
    the tree and the status it ends with are those of the scan in which
    every throwing comparison answers [false] instead, and a candidate on
    which the comparator throws is not among the matches. The comparator
    of [geminiService.ts] itself always returns a boolean, [false] when
    the request or the parsing of its answer throws. *)
Theorem C3_comparison_failure_is_local
  (compareImagesFn : FileNode -> FileNode -> Result bool)
  (treeData0 : list TreeNode) (sourceFile : FileNode) (tag : string)
  (w : World) :
  let candidates := otherImagesOf treeData0 sourceFile tag in
  (exists w' w'',
      propagateTagToSimilarImages compareImagesFn treeData0 sourceFile tag w
      = (Ok tt, w')
      /\ propagateTagToSimilarImages (failureAsNoMatch compareImagesFn)
           treeData0 sourceFile tag w
         = (Ok tt, w'')
      /\ treeData w' = treeData w''
      /\ propagationStatus w' = propagationStatus w''
      /\ compareCalls w' = compareCalls w ++ map (pair sourceFile) candidates)
  /\ (forall c e,
         compareImagesFn sourceFile c = Throw e ->
         ~ In c (matchesOf compareImagesFn sourceFile candidates))
  /\ (forall generateContent JSON_parse_match a b,
         (exists r, compareImages generateContent JSON_parse_match a b = Ok r)
         /\ (forall e,
                generateContent (content a, mimeType a) (content b, mimeType b)
                = Throw e ->
                compareImages generateContent JSON_parse_match a b = Ok false)
         /\ (forall text e,
                generateContent (content a, mimeType a) (content b, mimeType b)
                = Ok text ->
                JSON_parse_match text = Throw e ->
                compareImages generateContent JSON_parse_match a b = Ok false)).
Proof.
  intros candidates. split; [ | split ].
  - destruct (propagate_spec compareImagesFn treeData0 sourceFile tag w)
      as (w' & Hrun & Htree & Hstatus & Hcalls & _).
    destruct (propagate_spec (failureAsNoMatch compareImagesFn)
                treeData0 sourceFile tag w)
      as (w'' & Hrun' & Htree' & Hstatus' & _).
    rewrite matchesOf_failureAsNoMatch in Htree', Hstatus'.
    exists w', w''. repeat split; try assumption; congruence.
  - intros c e He Hin. unfold matchesOf in Hin.
    apply filter_In in Hin. destruct Hin as [_ Hm].
    rewrite He in Hm. discriminate.
  - intros generateContent JSON_parse_match a b.
    unfold compareImages, try_catch, bind. split; [ | split ].
    + destruct (generateContent _ _) as [ text | ];
        [ destruct (JSON_parse_match text) | ]; eexists; reflexivity.
    + intros e He. now rewrite He.
    + intros text e Htext He. now rewrite Htext, He.
Qed.

(** C10. When the id given to [handlePropagateTag] is not found in the
    tree, or names a folder, or names a file whose mime type does not
    start with "image/", the handler only writes its message to the
    console: the tree is unchanged, no tag is added, no comparator call is
    made and no timer is registered; and when no other timer is due, the
    100 ms that follow change nothing but the clock. *)
Theorem C10_propagate_guard
  (compareImagesFn : FileNode -> FileNode -> Result bool)
  (T : list TreeNode) (fileId tag : string) (w : World) :
  match findNodeInTree T fileId with
  | Some (File f) => isImageMime (mimeType f) = false
  | _ => True
  end ->
  handlePropagateTag T fileId tag w = (Ok tt, console_error sourceNotFound w)
  /\ treeData (snd (handlePropagateTag T fileId tag w)) = treeData w
  /\ compareCalls (snd (handlePropagateTag T fileId tag w)) = compareCalls w
  /\ timers (snd (handlePropagateTag T fileId tag w)) = timers w
  /\ (T = treeData w ->
      Forall (fun t => clock w + 100 < due t) (timers w) ->
      exists w',
        propagateTag compareImagesFn fileId tag w = (Ok tt, w')
        /\ treeData w' = treeData w
        /\ compareCalls w' = compareCalls w
        /\ timers w' = timers w).
Proof.
  intros Hguard.
  assert (Hrun : handlePropagateTag T fileId tag w
                 = (Ok tt, console_error sourceNotFound w)).
  { unfold handlePropagateTag.
    destruct (findNodeInTree T fileId) as [ [ f | ] | ];
      [ rewrite Hguard | | ]; reflexivity. }
  rewrite Hrun. repeat split.
  intros -> Hidle. unfold propagateTag, seq. rewrite Hrun.
  rewrite advance_idle by exact Hidle.
  eexists. split; [ reflexivity | ]. simpl. tauto.
Qed.

Lemma C10_propagate_guard_witness :
  match findNodeInTree initialTreeData "2" with
  | Some (File f) => isImageMime (mimeType f) = false
  | _ => True
  end
  /\ handlePropagateTag initialTreeData "2" "cat" (freshWorld initialTreeData)
     = (Ok tt, console_error sourceNotFound (freshWorld initialTreeData)).
Proof.
  split; [ reflexivity | ].
  apply (C10_propagate_guard (fun _ _ => Ok true) initialTreeData "2" "cat"
           (freshWorld initialTreeData)).
  reflexivity.
Defined.

Lemma C3_comparison_failure_is_local_witness :
  exists w',
    propagateTagToSimilarImages (fun _ _ => Throw "network") imagesTree
      imageA "cat" (freshWorld imagesTree)
    = (Ok tt, w')
    /\ compareCalls w' = [ (imageA, imageB) ].
Proof.
  destruct (C3_comparison_failure_is_local (fun _ _ => Throw "network")
              imagesTree imageA "cat" (freshWorld imagesTree))
    as [ (w' & _ & Hrun & _ & _ & _ & Hcalls) _ ].
  exists w'. split; [ exact Hrun | exact Hcalls ].
Defined.

(** ** [handleSelectNode] *)

Lemma find_cons_hit node rest targetId :
  nodeId node = targetId -> findNodeInTree (node :: rest) targetId = Some node.
Proof.
  intros <-. unfold findNodeInTree. simpl. now rewrite String.eqb_refl.
Qed.

Lemma find_after_update nodes targetId updateFn :
  (forall node, nodeId (updateFn node) = nodeId node) ->
  findNodeInTree (updateNodeInTree nodes targetId updateFn) targetId
  = option_map updateFn (findNodeInTree nodes targetId).
Proof.
  intros Hid.
  forest_induction nodes; tree_equations.
  - reflexivity.
  - destruct (String.eqb_spec (id f) targetId) as [E | E].
    + apply find_cons_hit. now rewrite Hid.
    + rewrite find_file.
      destruct (String.eqb_spec (id f) targetId); [ contradiction | assumption ].
  - destruct (String.eqb_spec i targetId) as [E | E].
    + apply find_cons_hit. now rewrite Hid.
    + rewrite find_folder.
      destruct (String.eqb_spec i targetId); [ contradiction | ].
      rewrite IHchildren.
      destruct (findNodeInTree children targetId); [ reflexivity | assumption ].
Qed.

Lemma updateAnalysis_id node r n :
  nodeId (updateAnalysis node r n) = nodeId n.
Proof.
  destruct n as [ f | ]; simpl; [ | reflexivity ].
  now destruct (String.eqb (id f) (id node)).
Qed.

Section Analysis.

Variable analyzeFile :
  nat -> string -> string -> string -> Result AnalysisResult.

Lemma select_cached node cached w :
  analysis node = Some cached ->
  handleSelectNode analyzeFile node w
  = (Ok tt, setError None (setSelectedFile (fun _ => Some node) w)).
Proof.
  intros H. unfold handleSelectNode. rewrite H. reflexivity.
Qed.

Lemma select_analyzed node r w :
  analysis node = None ->
  analyzeFile (length (analyzerCalls w)) (name node) (content node)
    (mimeType node) = Ok r ->
  exists w',
    handleSelectNode analyzeFile node w = (Ok tt, w')
    /\ treeData w'
       = updateNodeInTree (treeData w) (id node) (updateAnalysis node r)
    /\ analyzerCalls w'
       = analyzerCalls w ++ [ (name node, content node, mimeType node) ]
    /\ selectedFile w' = Some (withAnalysis node (Some r))
    /\ error w' = None
    /\ isLoading w' = false.
Proof.
  intros Hnone Hok.
  unfold handleSelectNode. rewrite Hnone.
  unfold tryCatchFinally, tryCatch, seq, act, callAnalyzeFile. simpl.
  rewrite Hok. simpl. eexists. split; [ reflexivity | ]. simpl.
  rewrite String.eqb_refl. tauto.
Qed.

Lemma select_failed node e w :
  analysis node = None ->
  analyzeFile (length (analyzerCalls w)) (name node) (content node)
    (mimeType node) = Throw e ->
  exists w',
    handleSelectNode analyzeFile node w = (Ok tt, w')
    /\ treeData w' = treeData w
    /\ analyzerCalls w'
       = analyzerCalls w ++ [ (name node, content node, mimeType node) ]
    /\ selectedFile w' = Some node
    /\ error w'
       = Some (if String.eqb e "" then analysisFailedDefault else e)
    /\ isLoading w' = false.
Proof.
  intros Hnone Hthrow.
  unfold handleSelectNode. rewrite Hnone.
  unfold tryCatchFinally, tryCatch, seq, act, callAnalyzeFile. simpl.
  rewrite Hthrow. simpl. eexists. split; [ reflexivity | ]. simpl. tauto.
Qed.

(** C7. Requesting the analysis of a file node that carries one returns
    at once with that node selected, the tree unchanged and no call to
    the analyzer, and so does a second request after it. And of two
    consecutive requests for a file of the tree that has no analysis yet, the first of which the analyzer answers,
    the second finds the analysis on the node of the new tree and makes
    no call: the analyzer has been called once. *)
Theorem C7_cached_analysis (node : FileNode) (cached : AnalysisResult)
  (w : World) :
  analysis node = Some cached ->
  (exists w' w'',
      handleSelectNode analyzeFile node w = (Ok tt, w')
      /\ selectedFile w' = Some node
      /\ treeData w' = treeData w
      /\ analyzerCalls w' = analyzerCalls w
      /\ handleSelectNode analyzeFile node w' = (Ok tt, w'')
      /\ treeData w'' = treeData w
      /\ analyzerCalls w'' = analyzerCalls w)
  /\ (forall node0 r v,
         analysis node0 = None ->
         findNodeInTree (treeData v) (id node0) = Some (File node0) ->
         analyzeFile (length (analyzerCalls v)) (name node0) (content node0)
           (mimeType node0) = Ok r ->
         exists v1 node1 v2,
           handleSelectNode analyzeFile node0 v = (Ok tt, v1)
           /\ findNodeInTree (treeData v1) (id node0) = Some (File node1)
           /\ analysis node1 = Some r
           /\ handleSelectNode analyzeFile node1 v1 = (Ok tt, v2)
           /\ treeData v2 = treeData v1
           /\ analyzerCalls v2
              = analyzerCalls v
                ++ [ (name node0, content node0, mimeType node0) ]).
Proof.
  intros Hcached. split.
  - do 2 eexists. split; [ now apply select_cached with cached | ].
    split; [ reflexivity | ]. split; [ reflexivity | ].
    split; [ reflexivity | ].
    split; [ now apply select_cached with cached | ]. simpl. tauto.
  - intros node0 r v Hnone Hfind Hok.
    destruct (select_analyzed node0 r v Hnone Hok)
      as (v1 & Hrun & Htree & Hcalls & _).
    exists v1, (withAnalysis node0 (Some r)).
    eexists. split; [ exact Hrun | ]. split; [ | split; [ reflexivity | ] ].
    + rewrite Htree, find_after_update by apply updateAnalysis_id.
      rewrite Hfind. simpl. now rewrite String.eqb_refl.
    + split; [ now apply select_cached with r | ].
      simpl. rewrite Hcalls. tauto.
Qed.

(** C8. When the analyzer throws on the request for a file without
    analysis, the handler returns with the tree unchanged, the message of
    the error (or the default text when it is empty) in [error] and the
    loading flag cleared; a following request for the same node calls
    the analyzer again, and when that call answers, its result is
    attached to the node. *)
Theorem C8_analyzer_failure (node : FileNode) (e : string) (w : World) :
  analysis node = None ->
  analyzeFile (length (analyzerCalls w)) (name node) (content node)
    (mimeType node) = Throw e ->
  exists w',
    handleSelectNode analyzeFile node w = (Ok tt, w')
    /\ treeData w' = treeData w
    /\ error w' = Some (if String.eqb e "" then analysisFailedDefault else e)
    /\ isLoading w' = false
    /\ analyzerCalls w'
       = analyzerCalls w ++ [ (name node, content node, mimeType node) ]
    /\ (exists w'',
           handleSelectNode analyzeFile node w' = (Ok tt, w'')
           /\ analyzerCalls w''
              = analyzerCalls w' ++ [ (name node, content node, mimeType node) ])
    /\ (forall r,
           analyzeFile (length (analyzerCalls w')) (name node) (content node)
             (mimeType node) = Ok r ->
           exists w'',
             handleSelectNode analyzeFile node w' = (Ok tt, w'')
             /\ treeData w''
                = updateNodeInTree (treeData w) (id node)
                    (updateAnalysis node r)
             /\ error w'' = None).
Proof.
  intros Hnone Hthrow.
  destruct (select_failed node e w Hnone Hthrow)
    as (w' & Hrun & Htree & Hcalls & _ & Herror & Hloading).
  exists w'. repeat (split; [ assumption | ]). split.
  - destruct (analyzeFile (length (analyzerCalls w')) (name node)
                (content node) (mimeType node)) as [ r | e' ] eqn:Hsecond.
    + destruct (select_analyzed node r w' Hnone Hsecond)
        as (w'' & Hrun' & _ & Hcalls' & _).
      exists w''. tauto.
    + destruct (select_failed node e' w' Hnone Hsecond)
        as (w'' & Hrun' & _ & Hcalls' & _).
      exists w''. tauto.
  - intros r Hok.
    destruct (select_analyzed node r w' Hnone Hok)
      as (w'' & Hrun' & Htree' & _ & _ & Herror' & _).
    exists w''. rewrite Htree' , Htree. tauto.
Qed.

End Analysis.

Lemma C7_cached_analysis_witness :
  analysis analysedA
  = Some (mkAnalysisResult "A cat." "cat.png" ["cat"] "Image")
  /\ exists w',
       handleSelectNode (fun _ _ _ _ => Throw "offline") analysedA
         (freshWorld imagesTree)
       = (Ok tt, w')
       /\ treeData w' = imagesTree
       /\ analyzerCalls w' = [].
Proof.
  split; [ reflexivity | ].
  destruct (C7_cached_analysis (fun _ _ _ _ => Throw "offline") analysedA
              (mkAnalysisResult "A cat." "cat.png" ["cat"] "Image")
              (freshWorld imagesTree) eq_refl)
    as [ (w' & _ & Hrun & _ & Htree & Hcalls & _) _ ].
  exists w'. split; [ exact Hrun | split; [ exact Htree | exact Hcalls ] ].
Defined.

Lemma C8_analyzer_failure_witness :
  analysis imageA = None
  /\ exists w',
       handleSelectNode (fun _ _ _ _ => Throw "API quota exceeded.") imageA
         (freshWorld imagesTree)
       = (Ok tt, w')
       /\ treeData w' = imagesTree
       /\ error w' = Some "API quota exceeded.".
Proof.
  split; [ reflexivity | ].
  destruct (C8_analyzer_failure (fun _ _ _ _ => Throw "API quota exceeded.")
              imageA "API quota exceeded." (freshWorld imagesTree)
              eq_refl eq_refl)
    as (w' & Hrun & Htree & Herror & _).
  exists w'. split; [ exact Hrun | split; [ exact Htree | exact Herror ] ].
Defined.

(** ** Tags stay free of duplicates *)

Lemma update_idempotent nodes targetId updateFn g :
  fileLocal updateFn g ->
  (forall f, id (g f) = id f) ->
  (forall f, g (g f) = g f) ->
  updateNodeInTree (updateNodeInTree nodes targetId updateFn) targetId updateFn
  = updateNodeInTree nodes targetId updateFn.
Proof.
  intros [Hfile Hfolder] Hid Hidem.
  forest_induction nodes; tree_equations.
  - reflexivity.
  - destruct (String.eqb_spec (id f) targetId) as [E | E].
    + rewrite Hfile, update_file, Hid.
      destruct (String.eqb_spec (id f) targetId); [ | contradiction ].
      rewrite Hfile, Hidem. now f_equal.
    + rewrite update_file.
      destruct (String.eqb_spec (id f) targetId); [ contradiction | ].
      now f_equal.
  - destruct (String.eqb_spec i targetId) as [E | E].
    + rewrite Hfolder, update_folder.
      destruct (String.eqb_spec i targetId); [ | contradiction ].
      rewrite Hfolder. now f_equal.
    + rewrite update_folder.
      destruct (String.eqb_spec i targetId); [ contradiction | ].
      now f_equal; [ f_equal | ].
Qed.

Lemma addTagWhere_id fileId tag f : id (addTagWhere fileId tag f) = id f.
Proof.
  unfold addTagWhere. destruct (String.eqb (id f) fileId);
    [ apply addTagToFile_id | reflexivity ].
Qed.

Lemma addTagWhere_idempotent fileId tag f :
  addTagWhere fileId tag (addTagWhere fileId tag f) = addTagWhere fileId tag f.
Proof.
  unfold addTagWhere at 1. rewrite addTagWhere_id. unfold addTagWhere.
  destruct (String.eqb (id f) fileId);
    [ apply addTagToFile_idempotent | reflexivity ].
Qed.

Lemma addTagWhere_NoDup fileId tag f :
  NoDup (tagsOf f) -> NoDup (tagsOf (addTagWhere fileId tag f)).
Proof.
  unfold addTagWhere. destruct (String.eqb (id f) fileId);
    [ apply addTagToFile_NoDup | tauto ].
Qed.

Lemma updateAnalysis_fileLocal node r :
  fileLocal (updateAnalysis node r)
    (fun f => if String.eqb (id f) (id node)
              then withAnalysis f (Some r) else f).
Proof.
  split; [ | reflexivity ].
  intros f. simpl. now destruct (String.eqb (id f) (id node)).
Qed.

(** C4, as amended. In a tree whose files have no tag twice: adding a tag
    with [handleAddTag] leaves it so, and adding the same tag again
    changes nothing; the batch update of a propagation leaves it so (and a
    file that it tags has no tag twice whatever it held before); attaching
    an analysis leaves it so when the tags that the analyzer returned have
    no duplicate: they are stored as returned. *)
Theorem C4_tags_without_duplicates
  (analyzeFile : nat -> string -> string -> string -> Result AnalysisResult)
  (w : World) :
  noDuplicateTags (treeData w) ->
  (forall fileId tag,
      exists w1 w2,
        handleAddTag fileId tag w = (Ok tt, w1)
        /\ noDuplicateTags (treeData w1)
        /\ handleAddTag fileId tag w1 = (Ok tt, w2)
        /\ treeData w2 = treeData w1)
  /\ (forall ids tag,
         noDuplicateTags (recursivelyUpdateTags ids tag (treeData w)))
  /\ (forall (T : list TreeNode) ids tag f,
         In f (filesOf T) -> includes ids (id f) = true ->
         In (applyTag tag f) (filesOf (recursivelyUpdateTags ids tag T))
         /\ NoDup (tagsOf (applyTag tag f)))
  /\ (forall node r,
         analysis node = None ->
         analyzeFile (length (analyzerCalls w)) (name node) (content node)
           (mimeType node) = Ok r ->
         NoDup (tags r) ->
         exists w',
           handleSelectNode analyzeFile node w = (Ok tt, w')
           /\ noDuplicateTags (treeData w')).
Proof.
  intros Hnd. split; [ | split; [ | split ] ].
  - intros fileId tag.
    destruct (handleAddTag_spec fileId tag w) as (w1 & Hrun1 & Htree1 & _).
    destruct (handleAddTag_spec fileId tag w1) as (w2 & Hrun2 & Htree2 & _).
    exists w1, w2. split; [ exact Hrun1 | ]. split; [ | split; [ exact Hrun2 | ] ].
    + rewrite Htree1. unfold noDuplicateTags.
      apply (files_update_Forall _ _ _ _ (addTagWhere fileId tag));
        [ apply addTagUpdateFn_fileLocal | | exact Hnd ].
      intros f. apply addTagWhere_NoDup.
    + rewrite Htree2, Htree1.
      apply (update_idempotent _ _ _ (addTagWhere fileId tag)).
      * apply addTagUpdateFn_fileLocal.
      * intros f. apply addTagWhere_id.
      * intros f. apply addTagWhere_idempotent.
  - intros ids tag. unfold noDuplicateTags in *.
    rewrite files_recursivelyUpdateTags. apply Forall_map.
    eapply Forall_impl; [ | exact Hnd ].
    intros f Hf. unfold applyTagWhere.
    destruct (includes ids (id f)); [ apply applyTag_NoDup | exact Hf ].
  - intros T ids tag f Hf Hin. split; [ | apply applyTag_NoDup ].
    rewrite files_recursivelyUpdateTags. apply in_map_iff.
    exists f. split; [ | exact Hf ]. unfold applyTagWhere. now rewrite Hin.
  - intros node r Hnone Hok Hr.
    destruct (select_analyzed analyzeFile node r w Hnone Hok)
      as (w' & Hrun & Htree & _).
    exists w'. split; [ exact Hrun | ].
    rewrite Htree. unfold noDuplicateTags.
    eapply files_update_Forall;
      [ apply updateAnalysis_fileLocal | | exact Hnd ].
    intros f Hf. simpl. destruct (String.eqb (id f) (id node)); [ | exact Hf ].
    exact Hr.
Qed.

Lemma C4_tags_without_duplicates_witness :
  noDuplicateTags imagesTree
  /\ noDuplicateTags (recursivelyUpdateTags ["a"; "b"] "cat" imagesTree).
Proof.
  assert (Hnd : noDuplicateTags imagesTree)
    by (unfold noDuplicateTags; simpl; repeat constructor).
  split; [ exact Hnd | ].
  apply (C4_tags_without_duplicates (fun _ _ _ _ => Throw "offline")
           (freshWorld imagesTree) Hnd).
Defined.

(** C4 as stated fails for attaching an analysis: the analyzer's result is
    stored as it is, duplicates included. *)
Lemma C4_attached_analysis_keeps_duplicates :
  let w := snd (handleSelectNode (fun _ _ _ _ => Ok repeatedTags) imageA
                  (freshWorld imagesTree)) in
  noDuplicateTags (treeData (freshWorld imagesTree))
  /\ map tagsOf (filesOf (treeData w)) = [ ["photo"; "photo"]; [] ]
  /\ ~ noDuplicateTags (treeData w).
Proof.
  split; [ unfold noDuplicateTags; simpl; repeat constructor | ].
  split; [ reflexivity | ].
  intros H. unfold noDuplicateTags in H. vm_compute in H.
  inversion H as [ | ? ? Hdup _ ]; subst.
  inversion Hdup as [ | ? ? Hnotin _ ]; subst.
  apply Hnotin. now left.
Qed.

(** ** The debounced save *)

Lemma seq_assoc {A B C : Type} (m : Js A) (k : A -> Js B) (h : B -> Js C) w :
  seq (seq m k) h w = seq m (fun a => seq (k a) h) w.
Proof.
  unfold seq. destruct (m w) as [ [ a | e ] w' ]; reflexivity.
Qed.

Lemma scheduleSave_spec tree w :
  timers w = [] \/ (exists t0 d, pendingSave t0 d w) ->
  exists w',
    scheduleSave tree w = (Ok tt, w')
    /\ pendingSave tree (clock w + 500) w'
    /\ clock w' = clock w
    /\ storageWrites w' = storageWrites w.
Proof.
  intros Hpre.
  assert (Hcleared :
            exists v,
              (fun w0 => match saveCleanup w0 with
                         | Some timeoutId => clearTimeout timeoutId w0
                         | None => (Ok tt, w0)
                         end) (setTreeData (fun _ => tree) w) = (Ok tt, v)
              /\ timers v = [] /\ clock v = clock w
              /\ storageWrites v = storageWrites w).
  { destruct Hpre as [ Hnil | (t0 & d & tid & Htimers & Hclean) ].
    - simpl. destruct (saveCleanup w) as [ tid | ].
      + eexists. split; [ reflexivity | ]. simpl. rewrite Hnil. tauto.
      + eexists. split; [ reflexivity | ]. simpl. tauto.
    - simpl. rewrite Hclean.
      eexists. split; [ reflexivity | ]. simpl. rewrite Htimers. simpl.
      rewrite Nat.eqb_refl. simpl. tauto. }
  destruct Hcleared as (v & Hrun & Htimers & Hclock & Hwrites).
  unfold scheduleSave, saveEffect.
  unfold seq at 1. unfold act at 1. unfold seq at 1.
  cbv beta in Hrun. rewrite Hrun.
  unfold seq, act, tryCatch, setTimeout, ret. simpl.
  eexists. split; [ reflexivity | ].
  unfold pendingSave. simpl. rewrite Htimers, Hclock, Hwrites.
  split; [ | tauto ]. eexists. split; reflexivity.
Qed.

Section Debounce.

Variable compareImagesFn : FileNode -> FileNode -> Result bool.

Lemma advance_add a b :
  forall w,
    advance compareImagesFn (a + b) w
    = (advance compareImagesFn a ;;; advance compareImagesFn b) w.
Proof.
  induction a as [ | a IH ]; intros w.
  - reflexivity.
  - change (advance compareImagesFn (S a + b) w)
      with ((tick compareImagesFn ;;; advance compareImagesFn (a + b)) w).
    change (advance compareImagesFn (S a))
      with (tick compareImagesFn ;;; advance compareImagesFn a).
    rewrite seq_assoc. unfold seq.
    destruct (tick compareImagesFn w) as [ [ [] | e ] w' ];
      [ rewrite IH; reflexivity | reflexivity ].
Qed.

Lemma advance_keeps_pending tree d gap w :
  pendingSave tree d w ->
  clock w + gap < d ->
  exists w',
    advance compareImagesFn gap w = (Ok tt, w')
    /\ pendingSave tree d w'
    /\ clock w' = clock w + gap
    /\ storageWrites w' = storageWrites w.
Proof.
  intros (tid & Htimers & Hclean) Hlt.
  exists (setClock (clock w + gap) w). split.
  - apply advance_idle. rewrite Htimers. repeat constructor. exact Hlt.
  - split; [ exists tid; simpl; tauto | simpl; tauto ].
Qed.

Lemma saveBurst_spec rest :
  forall tree w,
    pendingSave tree (clock w + 500) w ->
    Forall (fun c => fst c < 500) rest ->
    exists w',
      saveBurst compareImagesFn rest w = (Ok tt, w')
      /\ pendingSave (last (map snd rest) tree) (clock w' + 500) w'
      /\ storageWrites w' = storageWrites w.
Proof.
  induction rest as [ | [gap next] rest IH ]; intros tree w Hpending Hgaps.
  - exists w. simpl. unfold ret. tauto.
  - inversion Hgaps as [ | ? ? Hgap Hrest ]; subst. simpl in Hgap.
    destruct (advance_keeps_pending tree (clock w + 500) gap w Hpending)
      as (w1 & Hrun1 & Hpending1 & Hclock1 & Hwrites1); [ lia | ].
    destruct (scheduleSave_spec next w1)
      as (w2 & Hrun2 & Hpending2 & Hclock2 & Hwrites2).
    { right. eauto. }
    rewrite <- Hclock2 in Hpending2.
    destruct (IH next w2 Hpending2 Hrest) as (w' & Hrun & Hpending' & Hwrites').
    exists w'.
    change (saveBurst compareImagesFn ((gap, next) :: rest) w)
      with ((advance compareImagesFn gap ;;; scheduleSave next ;;;
             saveBurst compareImagesFn rest) w).
    unfold seq. rewrite Hrun1, Hrun2, Hrun.
    split; [ reflexivity | ]. split.
    + change (map snd ((gap, next) :: rest)) with (next :: map snd rest).
      rewrite last_cons. exact Hpending'.
    + congruence.
Qed.

Lemma fire_save tid d tree v :
  fireAll compareImagesFn [ mkTimer tid d (SaveTree tree) ] v
  = (Ok tt, setSaveStatus AllChangesSaved (localStorage_setItem tree v)).
Proof. reflexivity. Qed.

Lemma pending_save_fires tree extra w :
  pendingSave tree (clock w + 500) w ->
  exists w',
    advance compareImagesFn (500 + extra) w = (Ok tt, w')
    /\ storageWrites w' = storageWrites w ++ [ tree ]
    /\ timers w' = []
    /\ saveStatus w' = AllChangesSaved.
Proof.
  intros (tid & Htimers & Hclean).
  rewrite advance_add. unfold seq.
  rewrite (advance_fires_last compareImagesFn 499 w []
             (mkTimer tid (clock w + 500) (SaveTree tree)));
    [ | exact Htimers | reflexivity | constructor ].
  rewrite fire_save.
  rewrite advance_idle by (simpl; constructor).
  eexists. split; [ reflexivity | ]. simpl. tauto.
Qed.

(** C9. From a world without pending timers, let the tree change
    [k >= 1] times, each change less than 500 ms after the one before
    it. No tree is written while the changes go on; once 500 ms (or
    more) have passed since the last change, exactly one tree has been
    written to storage, the tree of the last change, and no timer is
    left. *)
Theorem C9_debounced_save (w : World) (first : list TreeNode)
  (rest : list (nat * list TreeNode)) (extra : nat) :
  timers w = [] ->
  Forall (fun c => fst c < 500) rest ->
  exists w1 w2,
    (scheduleSave first ;;; saveBurst compareImagesFn rest) w = (Ok tt, w1)
    /\ storageWrites w1 = storageWrites w
    /\ advance compareImagesFn (500 + extra) w1 = (Ok tt, w2)
    /\ storageWrites w2 = storageWrites w ++ [ last (map snd rest) first ]
    /\ timers w2 = [].
Proof.
  intros Hnil Hgaps.
  destruct (scheduleSave_spec first w (or_introl Hnil))
    as (v & Hrun & Hpending & Hclock & Hwrites).
  rewrite <- Hclock in Hpending.
  destruct (saveBurst_spec rest first v Hpending Hgaps)
    as (w1 & Hrun1 & Hpending1 & Hwrites1).
  destruct (pending_save_fires _ extra w1 Hpending1)
    as (w2 & Hrun2 & Hwrites2 & Htimers2 & _).
  exists w1, w2. unfold seq. rewrite Hrun, Hrun1.
  split; [ reflexivity | ]. split; [ congruence | ].
  split; [ exact Hrun2 | ]. split; [ | exact Htimers2 ].
  rewrite Hwrites2, Hwrites1, Hwrites. reflexivity.
Qed.

End Debounce.

Lemma C9_debounced_save_witness :
  timers (freshWorld initialTreeData) = []
  /\ Forall (fun c => fst c < 500) [ (120, imagesTree); (499, []) ]
  /\ exists w1 w2,
    (scheduleSave initialTreeData ;;;
     saveBurst (fun _ _ => Ok false) [ (120, imagesTree); (499, []) ])
      (freshWorld initialTreeData)
    = (Ok tt, w1)
    /\ storageWrites w1 = []
    /\ advance (fun _ _ => Ok false) (500 + 0) w1 = (Ok tt, w2)
    /\ storageWrites w2 = [ [] ]
    /\ timers w2 = [].
Proof.
  assert (Hgaps : Forall (fun c : nat * list TreeNode => fst c < 500)
                    [ (120, imagesTree); (499, []) ])
    by (repeat constructor; simpl; lia).
  split; [ reflexivity | ]. split; [ exact Hgaps | ].
  apply (C9_debounced_save (fun _ _ => Ok false) (freshWorld initialTreeData)
           initialTreeData [ (120, imagesTree); (499, []) ] 0 eq_refl Hgaps).
Defined.

(* ================================================================== *)
(** * Further properties of the tree helpers *)

Lemma find_file_by_id nodes f :
  uniqueIds nodes ->
  In f (filesOf nodes) ->
  findNodeInTree nodes (id f) = Some (File f).
Proof.
  unfold uniqueIds.
  forest_induction nodes; tree_equations; intros Hnd Hin.
  - destruct Hin.
  - inversion Hnd as [ | ? ? Hf0 Hrest ]; subst.
    destruct Hin as [ -> | Hin ].
    + now rewrite String.eqb_refl.
    + destruct (String.eqb_spec (id f0) (id f)) as [E | _]; [ | auto ].
      exfalso. apply Hf0. rewrite E. now apply files_ids.
  - inversion Hnd as [ | ? ? Hi Hsub ]; subst.
    assert (Hch : NoDup (idsOf children)) by now apply NoDup_app_remove_r in Hsub.
    assert (Hrs : NoDup (idsOf rest)) by now apply NoDup_app_remove_l in Hsub.
    assert (Hid : In (id f) (idsOf children ++ idsOf rest)).
    { apply in_app_iff in Hin. apply in_or_app.
      destruct Hin; [ left | right ]; now apply files_ids. }
    destruct (String.eqb_spec i (id f)) as [E | _];
      [ exfalso; apply Hi; now rewrite E | ].
    apply in_app_iff in Hin. destruct Hin as [Hin | Hin].
    + now rewrite IHchildren.
    + assert (Hnone : findNodeInTree children (id f) = None).
      { apply find_none_iff. intros H.
        apply (NoDup_app_disjoint _ _ (id f) Hsub H). now apply files_ids. }
      rewrite Hnone. auto.
Qed.

(** X1. [findNodeInTree] returns [null] exactly when no node of the tree
    has the id; a node that it returns has the id; and in a tree with
    unique ids every file is the node returned for its own id. *)
Theorem X1_find_by_id (T : list TreeNode) (n : string) :
  (findNodeInTree T n = None <-> ~ In n (idsOf T))
  /\ (forall node, findNodeInTree T n = Some node -> nodeId node = n)
  /\ (uniqueIds T ->
      forall f, In f (filesOf T) -> findNodeInTree T (id f) = Some (File f)).
Proof.
  split; [ apply find_none_iff | split ].
  - intros node. apply find_some_id.
  - intros Hu f. now apply find_file_by_id.
Qed.

(** X2. [findAllImageFiles] returns the files of the tree whose mime type
    starts with "image/", each once per occurrence and in pre-order; the
    candidates of a propagation are those of them that are not the source
    and do not yet carry the tag. *)
Theorem X2_image_files (T : list TreeNode) (sourceFile : FileNode)
  (tag : string) :
  findAllImageFiles T
  = filter (fun f => isImageMime (mimeType f)) (filesOf T)
  /\ (forall c,
         In c (otherImagesOf T sourceFile tag)
         <-> In c (filesOf T)
             /\ isImageMime (mimeType c) = true
             /\ id c <> id sourceFile
             /\ hasTag tag c = false).
Proof.
  split; [ apply images_are_files | ].
  intros c. unfold otherImagesOf.
  rewrite images_are_files, !filter_In, andb_true_iff, !negb_true_iff.
  destruct (String.eqb_spec (id c) (id sourceFile)); intuition congruence.
Qed.

(** X3. When the transform keeps the id of a node, looking up the target
    id after [updateNodeInTree] gives the transform of what the lookup
    gave before: the transformed node when there was one, [null] when
    there was none. *)
Theorem X3_find_after_update (T : list TreeNode) (n : string)
  (updateFn : TreeNode -> TreeNode) :
  (forall node, nodeId (updateFn node) = nodeId node) ->
  findNodeInTree (updateNodeInTree T n updateFn) n
  = option_map updateFn (findNodeInTree T n).
Proof. apply find_after_update. Qed.

Lemma X3_find_after_update_witness :
  (forall node, nodeId (updateName "Papers" node) = nodeId node)
  /\ findNodeInTree (updateNodeInTree initialTreeData "1" (updateName "Papers"))
       "1"
     = option_map (updateName "Papers") (findNodeInTree initialTreeData "1").
Proof.
  assert (H : forall node, nodeId (updateName "Papers" node) = nodeId node)
    by (intros [ f | i n p c ]; reflexivity).
  split; [ exact H | ].
  apply (X3_find_after_update initialTreeData "1" (updateName "Papers") H).
Defined.

Lemma remove_idempotent nodes targetId :
  removeNodeFromTree (removeNodeFromTree nodes targetId) targetId
  = removeNodeFromTree nodes targetId.
Proof.
  apply remove_absent. intros H. apply ids_remove_subset in H. tauto.
Qed.

Lemma remove_commutes nodes a b :
  removeNodeFromTree (removeNodeFromTree nodes a) b
  = removeNodeFromTree (removeNodeFromTree nodes b) a.
Proof.
  forest_induction nodes.
  - reflexivity.
  - rewrite (remove_file a), (remove_file b).
    destruct (String.eqb (id f) a) eqn:Ea, (String.eqb (id f) b) eqn:Eb;
      rewrite ?remove_file, ?Ea, ?Eb; try assumption.
    now f_equal.
  - rewrite (remove_folder a), (remove_folder b).
    destruct (String.eqb i a) eqn:Ea, (String.eqb i b) eqn:Eb;
      rewrite ?remove_folder, ?Ea, ?Eb; try assumption.
    now f_equal; [ f_equal | ].
Qed.

(** X4. Removing the same id twice is removing it once, and two removals
    give the same tree in either order. *)
Theorem X4_remove_composes (T : list TreeNode) (a b : string) :
  removeNodeFromTree (removeNodeFromTree T a) a = removeNodeFromTree T a
  /\ removeNodeFromTree (removeNodeFromTree T a) b
     = removeNodeFromTree (removeNodeFromTree T b) a.
Proof.
  split; [ apply remove_idempotent | apply remove_commutes ].
Qed.

(** ** What the handlers keep of the tree *)

Lemma ids_cons node rest : idsOf (node :: rest) = idsOfNode node ++ idsOf rest.
Proof. reflexivity. Qed.

Lemma update_ids nodes targetId updateFn :
  (forall node, idsOfNode (updateFn node) = idsOfNode node) ->
  idsOf (updateNodeInTree nodes targetId updateFn) = idsOf nodes.
Proof.
  intros Hfn.
  forest_induction nodes; tree_equations.
  - reflexivity.
  - rewrite ids_cons, IHrest.
    destruct (String.eqb (id f) targetId); [ now rewrite Hfn | reflexivity ].
  - rewrite ids_cons, IHrest.
    destruct (String.eqb i targetId); [ now rewrite Hfn | ].
    simpl. fold (idsOf (updateNodeInTree children targetId updateFn)).
    fold (idsOf children). now rewrite IHchildren.
Qed.

Lemma ids_recursivelyUpdateTags ids tag nodes :
  idsOf (recursivelyUpdateTags ids tag nodes) = idsOf nodes.
Proof.
  forest_induction nodes.
  - reflexivity.
  - rewrite recursivelyUpdateTags_file, ids_cons, IHrest.
    now destruct (includes ids (id f)).
  - rewrite recursivelyUpdateTags_folder, !ids_folder. now f_equal; f_equal.
Qed.

Lemma addTagUpdateFn_ids fileId tag node :
  idsOfNode (addTagUpdateFn fileId tag node) = idsOfNode node.
Proof.
  destruct node as [ f | ]; simpl; [ | reflexivity ].
  destruct (String.eqb (id f) fileId); simpl; [ | reflexivity ].
  now rewrite addTagToFile_id.
Qed.

Lemma removeTagFromFile_id tag f : id (removeTagFromFile tag f) = id f.
Proof. unfold removeTagFromFile. now destruct (analysis f). Qed.

Lemma removeTagUpdateFn_ids tag node :
  idsOfNode (removeTagUpdateFn tag node) = idsOfNode node.
Proof.
  destruct node as [ f | ]; simpl; [ | reflexivity ].
  now rewrite removeTagFromFile_id.
Qed.

Lemma updateName_ids newName node :
  idsOfNode (updateName newName node) = idsOfNode node.
Proof. now destruct node. Qed.

Lemma updateAnalysis_ids node r n :
  idsOfNode (updateAnalysis node r n) = idsOfNode n.
Proof.
  destruct n as [ f | ]; simpl; [ | reflexivity ].
  now destruct (String.eqb (id f) (id node)).
Qed.

(** X5. Adding a tag, removing a tag, renaming, requesting an analysis
    (whatever the analyzer answers) and the batch update of a propagation
    leave the ids of the tree as they are, in the same pre-order: none of
    them adds, drops, moves or re-identifies a node. *)
Theorem X5_handlers_keep_ids
  (analyzeFile : nat -> string -> string -> string -> Result AnalysisResult)
  (w : World) (fileId text : string) (node : FileNode) (ids : list string) :
  idsOf (treeData (snd (handleAddTag fileId text w))) = idsOf (treeData w)
  /\ idsOf (treeData (snd (handleRemoveTag fileId text w))) = idsOf (treeData w)
  /\ idsOf (treeData (snd (handleUpdateFileName fileId text w)))
     = idsOf (treeData w)
  /\ idsOf (treeData (snd (handleSelectNode analyzeFile node w)))
     = idsOf (treeData w)
  /\ idsOf (recursivelyUpdateTags ids text (treeData w)) = idsOf (treeData w).
Proof.
  split; [ | split; [ | split; [ | split ] ] ].
  - destruct (handleAddTag_spec fileId text w) as (w' & Hrun & Htree & _).
    rewrite Hrun. simpl. rewrite Htree.
    apply update_ids. intros n. apply addTagUpdateFn_ids.
  - simpl. apply update_ids. intros n. apply removeTagUpdateFn_ids.
  - simpl. apply update_ids. intros n. apply updateName_ids.
  - destruct (analysis node) as [ cached | ] eqn:Ea.
    + rewrite (select_cached analyzeFile node cached w Ea). reflexivity.
    + destruct (analyzeFile (length (analyzerCalls w)) (name node)
                  (content node) (mimeType node)) as [ r | e ] eqn:Eo.
      * destruct (select_analyzed analyzeFile node r w Ea Eo)
          as (w' & Hrun & Htree & _).
        rewrite Hrun. simpl. rewrite Htree.
        apply update_ids. intros n. apply updateAnalysis_ids.
      * destruct (select_failed analyzeFile node e w Ea Eo)
          as (w' & Hrun & Htree & _).
        rewrite Hrun. simpl. now rewrite Htree.
  - apply ids_recursivelyUpdateTags.
Qed.

(** X6. Removing a node from a tree with unique ids gives a tree with
    unique ids. *)
Theorem X6_remove_keeps_ids_unique (T : list TreeNode) (n : string) :
  uniqueIds T -> uniqueIds (removeNodeFromTree T n).
Proof.
  intros Hu. unfold uniqueIds. rewrite ids_remove_filter by exact Hu.
  now apply NoDup_filter.
Qed.

Lemma X6_remove_keeps_ids_unique_witness :
  uniqueIds initialTreeData
  /\ uniqueIds (removeNodeFromTree initialTreeData "2").
Proof.
  assert (Hu : uniqueIds initialTreeData).
  { unfold uniqueIds. simpl.
    repeat constructor; simpl; intuition discriminate. }
  split; [ exact Hu | ].
  exact (X6_remove_keeps_ids_unique initialTreeData "2" Hu).
Defined.

(** ** Adding and removing a tag, renaming, removing a node *)

Lemma files_update_others nodes targetId updateFn g x :
  fileLocal updateFn g ->
  In x (filesOf nodes) -> id x <> targetId ->
  In x (filesOf (updateNodeInTree nodes targetId updateFn)).
Proof.
  intros [Hfile Hfolder].
  forest_induction nodes; tree_equations; intros Hin Hx.
  - destruct Hin.
  - destruct Hin as [ -> | Hin ].
    + destruct (String.eqb_spec (id x) targetId); [ contradiction | ].
      rewrite files_file. now left.
    + destruct (String.eqb (id f) targetId);
        rewrite ?Hfile, files_file; right; auto.
  - apply in_app_iff in Hin.
    destruct (String.eqb i targetId);
      rewrite ?Hfolder, files_folder; apply in_or_app; tauto.
Qed.










Lemma addTagToFile_tagsOf tag f :
  tagsOf (addTagToFile tag f)
  = if hasTag tag f then tagsOf f else tagsOf f ++ [ tag ].
Proof.
  unfold addTagToFile, hasTag, tagsOf.
  destruct (analysis f) as [ a | ] eqn:Ea; simpl.
  - destruct (includes (tags a) tag); simpl; [ now rewrite Ea | reflexivity ].
  - reflexivity.
Qed.


Lemma removeTagUpdateFn_fileLocal tag :
  fileLocal (removeTagUpdateFn tag) (removeTagFromFile tag).
Proof. split; reflexivity. Qed.

Lemma removeTagUpdateFn_nodeId tag node :
  nodeId (removeTagUpdateFn tag node) = nodeId node.
Proof.
  destruct node as [ f | ]; simpl; [ apply removeTagFromFile_id | reflexivity ].
Qed.

Lemma removeTagFromFile_tagsOf tag f :
  tagsOf (removeTagFromFile tag f) = withoutTag tag (tagsOf f).
Proof.
  unfold removeTagFromFile, tagsOf.
  destruct (analysis f) as [ a | ] eqn:Ea; simpl; [ reflexivity | ].
  now rewrite Ea.
Qed.

Lemma withoutTag_In tag ts x :
  In x (withoutTag tag ts) <-> In x ts /\ x <> tag.
Proof.
  unfold withoutTag. rewrite filter_In, negb_true_iff.
  destruct (String.eqb_spec x tag); intuition congruence.
Qed.

(** X8. [handleRemoveTag] leaves the file it targets with its tags
    filtered: the tag is gone, the other tags stay in their order, a file
    without analysis is left without one; every file with another id is
    left as it was, and tags that had no duplicates still have none. *)
Theorem X8_remove_tag (w : World) (fileId tag : string) :
  let w' := snd (handleRemoveTag fileId tag w) in
  (forall f,
      findNodeInTree (treeData w) fileId = Some (File f) ->
      findNodeInTree (treeData w') fileId
      = Some (File (removeTagFromFile tag f))
      /\ tagsOf (removeTagFromFile tag f)
         = filter (fun t => negb (String.eqb t tag)) (tagsOf f)
      /\ ~ In tag (tagsOf (removeTagFromFile tag f))
      /\ (analysis f = None -> removeTagFromFile tag f = f))
  /\ (forall g,
         In g (filesOf (treeData w)) -> id g <> fileId ->
         In g (filesOf (treeData w')))
  /\ (noDuplicateTags (treeData w) -> noDuplicateTags (treeData w')).
Proof.
  intros w'.
  assert (Htree : treeData w'
                  = updateNodeInTree (treeData w) fileId
                      (removeTagUpdateFn tag)) by reflexivity.
  split; [ | split ].
  - intros f Hfind. split; [ | split; [ | split ] ].
    + rewrite Htree, find_after_update by apply removeTagUpdateFn_nodeId.
      now rewrite Hfind.
    + apply removeTagFromFile_tagsOf.
    + rewrite removeTagFromFile_tagsOf, withoutTag_In. tauto.
    + intros Hnone. unfold removeTagFromFile. now rewrite Hnone.
  - intros g Hg Hne. rewrite Htree.
    apply (files_update_others _ _ _ (removeTagFromFile tag));
      [ apply removeTagUpdateFn_fileLocal | exact Hg | exact Hne ].
  - intros Hnd. rewrite Htree. unfold noDuplicateTags.
    apply (files_update_Forall _ _ _ _ (removeTagFromFile tag));
      [ apply removeTagUpdateFn_fileLocal | | exact Hnd ].
    intros f Hf. rewrite removeTagFromFile_tagsOf.
    now apply NoDup_filter.
Qed.

Lemma update_compose nodes targetId f1 g1 f2 :
  fileLocal f1 g1 ->
  (forall f, id (g1 f) = id f) ->
  updateNodeInTree (updateNodeInTree nodes targetId f1) targetId f2
  = updateNodeInTree nodes targetId (fun node => f2 (f1 node)).
Proof.
  intros [Hfile Hfolder] Hid.
  forest_induction nodes; tree_equations.
  - reflexivity.
  - destruct (String.eqb (id f) targetId) eqn:E.
    + rewrite Hfile, update_file, Hid, E. now f_equal.
    + rewrite update_file, E. now f_equal.
  - destruct (String.eqb i targetId) eqn:E.
    + rewrite Hfolder, update_folder, E. now f_equal.
    + rewrite update_folder, E. now f_equal; [ f_equal | ].
Qed.

Lemma update_fixes_files nodes targetId updateFn g :
  fileLocal updateFn g ->
  (forall f, In f (filesOf nodes) -> id f = targetId -> g f = f) ->
  updateNodeInTree nodes targetId updateFn = nodes.
Proof.
  intros [Hfile Hfolder].
  forest_induction nodes; tree_equations; intros Hfix.
  - reflexivity.
  - f_equal.
    + destruct (String.eqb_spec (id f) targetId) as [E | _]; [ | reflexivity ].
      rewrite Hfile. f_equal. apply Hfix; [ now left | exact E ].
    + apply IHrest. intros x Hx. apply Hfix. now right.
  - assert (Hc : forall f, In f (filesOf children) -> id f = targetId -> g f = f)
      by (intros x Hx; apply Hfix; apply in_or_app; now left).
    assert (Hr : forall f, In f (filesOf rest) -> id f = targetId -> g f = f)
      by (intros x Hx; apply Hfix; apply in_or_app; now right).
    destruct (String.eqb i targetId).
    + rewrite Hfolder. f_equal. auto.
    + f_equal; [ f_equal | ]; auto.
Qed.

Lemma files_update_observed {A : Type} (observe : FileNode -> A)
  nodes targetId updateFn g :
  fileLocal updateFn g ->
  (forall f, In f (filesOf nodes) -> id f = targetId ->
             observe (g f) = observe f) ->
  map observe (filesOf (updateNodeInTree nodes targetId updateFn))
  = map observe (filesOf nodes).
Proof.
  intros [Hfile Hfolder].
  forest_induction nodes; tree_equations; intros Hobs.
  - reflexivity.
  - assert (Hr : map observe (filesOf (updateNodeInTree rest targetId updateFn))
                 = map observe (filesOf rest))
      by (apply IHrest; intros x Hx; apply Hobs; now right).
    destruct (String.eqb_spec (id f) targetId) as [E | _].
    + rewrite Hfile, files_file. simpl. f_equal; [ | exact Hr ].
      apply Hobs; [ now left | exact E ].
    + rewrite files_file. simpl. now f_equal.
  - assert (Hc : map observe
                   (filesOf (updateNodeInTree children targetId updateFn))
                 = map observe (filesOf children))
      by (apply IHchildren; intros x Hx; apply Hobs; apply in_or_app; now left).
    assert (Hr : map observe (filesOf (updateNodeInTree rest targetId updateFn))
                 = map observe (filesOf rest))
      by (apply IHrest; intros x Hx; apply Hobs; apply in_or_app; now right).
    destruct (String.eqb i targetId).
    + rewrite Hfolder, files_folder, !map_app. now f_equal.
    + rewrite files_folder, !map_app. now f_equal.
Qed.

Lemma addThenRemove_fileLocal fileId tag :
  fileLocal
    (fun node => removeTagUpdateFn tag (addTagUpdateFn fileId tag node))
    (fun f => removeTagFromFile tag (addTagWhere fileId tag f)).
Proof.
  split; [ | reflexivity ].
  intros f. unfold addTagWhere. simpl.
  now destruct (String.eqb (id f) fileId).
Qed.

Lemma withoutTag_fresh tag ts :
  ~ In tag ts -> withoutTag tag (ts ++ [ tag ]) = ts.
Proof.
  intros Hn. unfold withoutTag. rewrite filter_app. simpl.
  rewrite String.eqb_refl. simpl. rewrite app_nil_r.
  apply filter_keep. intros x Hx. apply negb_true_iff.
  destruct (String.eqb_spec x tag); [ subst; contradiction | reflexivity ].
Qed.

Lemma addThenRemove_tags fileId tag f :
  id f = fileId -> ~ In tag (tagsOf f) ->
  tagsOf (removeTagFromFile tag (addTagWhere fileId tag f)) = tagsOf f.
Proof.
  intros Hid Hn. unfold addTagWhere. rewrite Hid, String.eqb_refl.
  rewrite removeTagFromFile_tagsOf, addTagToFile_tagsOf.
  assert (Hh : hasTag tag f = false).
  { destruct (hasTag tag f) eqn:E; [ | reflexivity ].
    apply hasTag_In in E. contradiction. }
  rewrite Hh. now apply withoutTag_fresh.
Qed.

Lemma addThenRemove_file fileId tag f :
  id f = fileId -> ~ In tag (tagsOf f) -> analysis f <> None ->
  removeTagFromFile tag (addTagWhere fileId tag f) = f.
Proof.
  intros Hid Hn Ha. unfold addTagWhere. rewrite Hid, String.eqb_refl.
  unfold tagsOf in Hn. unfold removeTagFromFile, addTagToFile.
  destruct f as [ i nm c m [ [ s sn ts d ] | ] p ]; simpl in *;
    [ | contradiction ].
  assert (Hi : includes ts tag = false) by now apply includes_not_In.
  rewrite Hi. simpl. now rewrite withoutTag_fresh.
Qed.

(** X9. Adding a tag to a file that does not carry it and then removing
    it gives every file of the tree the tags it had; the tree itself is
    the one before when the file had an analysis (a file without one
    keeps the empty analysis that adding the tag created). *)
Theorem X9_add_then_remove_tag (w : World) (fileId tag : string) :
  (forall f, In f (filesOf (treeData w)) -> id f = fileId ->
             ~ In tag (tagsOf f)) ->
  let w'' := snd (handleRemoveTag fileId tag
                    (snd (handleAddTag fileId tag w))) in
  map tagsOf (filesOf (treeData w'')) = map tagsOf (filesOf (treeData w))
  /\ ((forall f, In f (filesOf (treeData w)) -> id f = fileId ->
                 analysis f <> None) ->
      treeData w'' = treeData w).
Proof.
  intros Hfresh w''.
  assert (Htree : treeData w''
                  = updateNodeInTree (treeData w) fileId
                      (fun node =>
                         removeTagUpdateFn tag (addTagUpdateFn fileId tag node))).
  { subst w''. destruct (handleAddTag_spec fileId tag w) as (v & Hrun & Ht & _).
    rewrite Hrun. simpl. rewrite Ht.
    apply (update_compose _ _ _ (addTagWhere fileId tag)).
    - apply addTagUpdateFn_fileLocal.
    - intros f. apply addTagWhere_id. }
  rewrite Htree. split.
  - apply (files_update_observed tagsOf _ _ _ _ (addThenRemove_fileLocal fileId tag)).
    intros f Hf Hid. apply addThenRemove_tags; auto.
  - intros Hanalysed.
    apply (update_fixes_files _ _ _ _ (addThenRemove_fileLocal fileId tag)).
    intros f Hf Hid. apply addThenRemove_file; auto.
Qed.

Lemma X9_add_then_remove_tag_witness :
  (forall f, In f (filesOf [ File taggedFile ]) -> id f = "t" ->
             ~ In "draft" (tagsOf f))
  /\ treeData
       (snd (handleRemoveTag "t" "draft"
               (snd (handleAddTag "t" "draft" (freshWorld [ File taggedFile ])))))
     = [ File taggedFile ].
Proof.
  assert (H : forall f, In f (filesOf [ File taggedFile ]) -> id f = "t" ->
                        ~ In "draft" (tagsOf f)).
  { intros f [ <- | [] ] _. simpl. intuition discriminate. }
  split; [ exact H | ].
  apply (X9_add_then_remove_tag (freshWorld [ File taggedFile ]) "t" "draft" H).
  intros f [ <- | [] ] _. discriminate.
Defined.

(** X10. [handleRemoveNode] removes the node from the tree and clears the
    selection exactly when the selected file has the removed id. A
    selected file that lies inside a removed folder therefore stays
    selected, although the tree no longer has it. *)
Theorem X10_remove_node_selection (w : World) (n : string) :
  let w' := snd (handleRemoveNode (selectedFile w) n w) in
  treeData w' = removeNodeFromTree (treeData w) n
  /\ (forall f, selectedFile w = Some f -> id f = n -> selectedFile w' = None)
  /\ (forall f, selectedFile w = Some f -> id f <> n ->
                selectedFile w' = Some f)
  /\ (forall f folder,
         uniqueIds (treeData w) ->
         selectedFile w = Some f ->
         findNodeInTree (treeData w) n = Some folder ->
         In (id f) (idsOfNode folder) -> id f <> n ->
         selectedFile w' = Some f
         /\ findNodeInTree (treeData w') (id f) = None).
Proof.
  intros w'.
  assert (Htree : treeData w' = removeNodeFromTree (treeData w) n).
  { subst w'. unfold handleRemoveNode, seq, act, ret.
    destruct (selectedFile w) as [ f | ]; [ | reflexivity ].
    destruct (String.eqb (id f) n); reflexivity. }
  assert (Hkeep : forall f, selectedFile w = Some f -> id f <> n ->
                            selectedFile w' = Some f).
  { intros f Hsel Hne. subst w'. unfold handleRemoveNode, seq, act, ret.
    rewrite Hsel.
    destruct (String.eqb_spec (id f) n); [ contradiction | ].
    simpl. exact Hsel. }
  split; [ exact Htree | split; [ | split; [ exact Hkeep | ] ] ].
  - intros f Hsel Hid. subst w'. unfold handleRemoveNode, seq, act, ret.
    rewrite Hsel, Hid, String.eqb_refl. reflexivity.
  - intros f folder Hu Hsel Hfind Hin Hne. split; [ now apply Hkeep | ].
    rewrite Htree. now apply (subtree_removed _ _ folder).
Qed.

Lemma updateName_nodeId newName node :
  nodeId (updateName newName node) = nodeId node.
Proof. now destruct node. Qed.

Lemma rename_keeps_files nodes fileId newName :
  map (fun f => withName f "")
    (filesOf (updateNodeInTree nodes fileId (updateName newName)))
  = map (fun f => withName f "") (filesOf nodes).
Proof.
  forest_induction nodes; tree_equations.
  - reflexivity.
  - destruct (String.eqb (id f) fileId); simpl updateName;
      rewrite files_file; simpl; now f_equal.
  - destruct (String.eqb i fileId); simpl updateName;
      rewrite files_folder, !map_app; now f_equal.
Qed.

Lemma rename_keeps_others nodes fileId newName g :
  In g (filesOf nodes) -> id g <> fileId ->
  In g (filesOf (updateNodeInTree nodes fileId (updateName newName))).
Proof.
  forest_induction nodes; tree_equations; intros Hin Hne.
  - destruct Hin.
  - destruct Hin as [ -> | Hin ].
    + destruct (String.eqb_spec (id g) fileId); [ contradiction | ].
      rewrite files_file. now left.
    + destruct (String.eqb (id f) fileId); simpl updateName;
        rewrite files_file; right; auto.
  - apply in_app_iff in Hin.
    destruct (String.eqb i fileId); simpl updateName;
      rewrite files_folder; apply in_or_app; tauto.
Qed.

(** X11. [handleUpdateFileName] gives the node found for the id the new
    name (a folder keeps its children) and renames the selection when it
    has the id; of the files of the tree only names can have changed
    (ids, contents, mime types, analyses and paths are as before), and a
    file with another id is as it was. *)
Theorem X11_rename (w : World) (fileId newName : string) :
  let w' := snd (handleUpdateFileName fileId newName w) in
  findNodeInTree (treeData w') fileId
  = option_map (updateName newName) (findNodeInTree (treeData w) fileId)
  /\ idsOf (treeData w') = idsOf (treeData w)
  /\ map (fun f => withName f "") (filesOf (treeData w'))
     = map (fun f => withName f "") (filesOf (treeData w))
  /\ (forall g,
         In g (filesOf (treeData w)) -> id g <> fileId ->
         In g (filesOf (treeData w')))
  /\ (forall p,
         selectedFile w = Some p -> id p = fileId ->
         selectedFile w' = Some (withName p newName)).
Proof.
  intros w'. subst w'. simpl.
  split; [ | split; [ | split; [ | split ] ] ].
  - apply find_after_update. intros node. apply updateName_nodeId.
  - apply update_ids. intros node. apply updateName_ids.
  - apply rename_keeps_files.
  - intros g. apply rename_keeps_others.
  - intros p Hsel Hid. now rewrite Hsel, Hid, String.eqb_refl.
Qed.

(** ** Uploaded files *)

Lemma find_app a b targetId :
  findNodeInTree (a ++ b) targetId
  = match findNodeInTree a targetId with
    | Some found => Some found
    | None => findNodeInTree b targetId
    end.
Proof.
  forest_induction a.
  - simpl. now destruct (findNodeInTree b targetId).
  - rewrite <- app_comm_cons, !find_file.
    destruct (String.eqb (id f) targetId); [ reflexivity | assumption ].
  - rewrite <- app_comm_cons, !find_folder.
    destruct (String.eqb i targetId); [ reflexivity | ].
    destruct (findNodeInTree children targetId); [ reflexivity | assumption ].
Qed.

Lemma ids_app a b : idsOf (a ++ b) = idsOf a ++ idsOf b.
Proof. unfold idsOf. apply flat_map_app. Qed.

Lemma files_app a b : filesOf (a ++ b) = filesOf a ++ filesOf b.
Proof. unfold filesOf. apply flat_map_app. Qed.

(** X12. When the content read for an upload is defined, [reader.onload]
    appends the new file after the nodes of the root, so the files of the
    tree are the earlier ones followed by it. Every id that was found is
    found as before. When the new id is not in the tree, it is found as
    the new file and unique ids stay unique; when it is, the lookup still
    returns the earlier node. *)
Theorem X12_upload_appends (w : World)
  (freshId fileName fileType readerResult fileContent : string) :
  fileContentOf fileType readerResult = Some fileContent ->
  let newFile := uploadedFile freshId fileName fileType fileContent in
  exists run,
    readerOnLoad freshId fileName fileType readerResult = Some run
    /\ fst (run w) = Ok tt
    /\ treeData (snd (run w)) = treeData w ++ [ File newFile ]
    /\ filesOf (treeData (snd (run w))) = filesOf (treeData w) ++ [ newFile ]
    /\ (forall n found,
           findNodeInTree (treeData w) n = Some found ->
           findNodeInTree (treeData (snd (run w))) n = Some found)
    /\ (~ In freshId (idsOf (treeData w)) ->
        findNodeInTree (treeData (snd (run w))) freshId = Some (File newFile)
        /\ (uniqueIds (treeData w) -> uniqueIds (treeData (snd (run w))))).
Proof.
  intros Hcontent newFile. unfold readerOnLoad. rewrite Hcontent.
  eexists. split; [ reflexivity | ]. simpl. fold newFile.
  split; [ reflexivity | ]. split; [ reflexivity | ].
  split; [ | split ].
  - rewrite files_app. reflexivity.
  - intros n found Hfind. now rewrite find_app, Hfind.
  - intros Hfresh. split.
    + rewrite find_app.
      assert (Hnone : findNodeInTree (treeData w) freshId = None)
        by now apply find_none_iff.
      rewrite Hnone. apply find_cons_hit. reflexivity.
    + unfold uniqueIds. intros Hu. rewrite ids_app. simpl.
      apply NoDup_app; [ exact Hu | repeat constructor; simpl; tauto | ].
      intros a Ha [ <- | [] ]. contradiction.
Qed.

Lemma X12_upload_appends_witness :
  fileContentOf "text/plain" "hello, world" = Some "hello, world"
  /\ exists run,
       readerOnLoad "n1" "hello.txt" "text/plain" "hello, world" = Some run
       /\ filesOf (treeData (snd (run (freshWorld imagesTree))))
          = [ imageA; imageB;
              uploadedFile "n1" "hello.txt" "text/plain" "hello, world" ].
Proof.
  split; [ reflexivity | ].
  destruct (X12_upload_appends (freshWorld imagesTree) "n1" "hello.txt"
              "text/plain" "hello, world" "hello, world" eq_refl)
    as (run & Hrun & _ & _ & Hfiles & _).
  exists run. split; [ exact Hrun | exact Hfiles ].
Defined.

(** ** The content of an uploaded image *)

Lemma string_app_assoc (a b c : string) :
  ((a ++ b) ++ c)%string = (a ++ (b ++ c))%string.
Proof. induction a as [ | x a IH ]; simpl; [ reflexivity | now rewrite IH ]. Qed.

Lemma hasChar_app c (a b : string) :
  hasChar c (a ++ b)%string = hasChar c a || hasChar c b.
Proof.
  induction a as [ | x a IH ]; simpl; [ reflexivity | ].
  now destruct (Ascii.eqb x c).
Qed.

Lemma splitOn_without sep s : hasChar sep s = false -> splitOn sep s = [ s ].
Proof.
  induction s as [ | x s IH ]; simpl; [ reflexivity | ].
  destruct (Ascii.eqb x sep); [ discriminate | ].
  intros H. now rewrite IH.
Qed.

Lemma splitOn_first sep (h p : string) :
  hasChar sep h = false ->
  splitOn sep (h ++ String sep p)%string = h :: splitOn sep p.
Proof.
  induction h as [ | x h IH ]; simpl.
  - intros _. now rewrite Ascii.eqb_refl.
  - destruct (Ascii.eqb x sep); [ discriminate | ].
    intros H. now rewrite IH.
Qed.

(** X13. For an image, the stored content is the part of the data URL
    after its comma: from [data:<type>;base64,<payload>], with no comma
    in the type or the payload, the payload, so that the [src] that
    [FilePreview] builds from the stored file is the data URL that was
    read. An image result without comma has no second field (the content
    is [undefined]); any other file keeps the text read, commas
    included. *)
Theorem X13_image_content (freshId fileName fileType payload : string) :
  (isImageMime fileType = true ->
   hasChar "," fileType = false ->
   hasChar "," payload = false ->
   fileContentOf fileType ("data:" ++ fileType ++ ";base64," ++ payload)%string
   = Some payload
   /\ previewImageSrc (uploadedFile freshId fileName fileType payload)
      = ("data:" ++ fileType ++ ";base64," ++ payload)%string)
  /\ (forall readerResult,
         isImageMime fileType = true ->
         hasChar "," readerResult = false ->
         fileContentOf fileType readerResult = None)
  /\ (forall readerResult,
         isImageMime fileType = false ->
         fileContentOf fileType readerResult = Some readerResult).
Proof.
  split; [ | split ].
  - intros Himage Htype Hpayload. split; [ | reflexivity ].
    unfold fileContentOf. rewrite Himage.
    replace ("data:" ++ fileType ++ ";base64," ++ payload)%string
      with (("data:" ++ fileType ++ ";base64") ++ String "," payload)%string.
    + rewrite splitOn_first.
      * simpl. now rewrite splitOn_without.
      * rewrite !hasChar_app, Htype. reflexivity.
    + rewrite !string_app_assoc. reflexivity.
  - intros readerResult Himage Hnone. unfold fileContentOf.
    rewrite Himage, splitOn_without by exact Hnone. reflexivity.
  - intros readerResult Htext. unfold fileContentOf. now rewrite Htext.
Qed.

(** ** The batch update of a propagation *)

Lemma fold_set_add_fresh l :
  forall acc, NoDup (acc ++ l) -> fold_left set_add l acc = acc ++ l.
Proof.
  induction l as [ | x l IH ]; intros acc Hnd; simpl.
  - now rewrite app_nil_r.
  - assert (Hx : includes acc x = false).
    { apply includes_not_In. intros Hin.
      apply (NoDup_app_disjoint _ _ x Hnd Hin). now left. }
    unfold set_add at 2. rewrite Hx.
    rewrite IH; rewrite <- app_assoc; [ reflexivity | exact Hnd ].
Qed.

Lemma set_of_array_fixed l : NoDup l -> set_of_array l = l.
Proof. intros H. apply (fold_set_add_fresh l []). exact H. Qed.

Lemma set_of_array_snoc l x :
  set_of_array (l ++ [ x ]) = set_add (set_of_array l) x.
Proof. unfold set_of_array. now rewrite fold_left_app. Qed.

Lemma applyTag_idempotent tag f : applyTag tag (applyTag tag f) = applyTag tag f.
Proof.
  unfold applyTag.
  destruct (analysis f) as [ a | ]; simpl.
  - unfold withAnalysis, withTags. simpl. do 3 f_equal.
    rewrite set_of_array_snoc.
    rewrite (set_of_array_fixed (set_of_array (tags a ++ [ tag ])))
      by apply set_of_array_NoDup.
    unfold set_add.
    assert (H : includes (set_of_array (tags a ++ [ tag ])) tag = true).
    { apply includes_In, set_of_array_In, in_or_app. right. now left. }
    now rewrite H.
  - unfold withAnalysis, withTags. simpl. do 3 f_equal.
    unfold set_of_array. simpl. unfold set_add at 2. simpl.
    unfold set_add. simpl. now rewrite String.eqb_refl.
Qed.

Lemma includes_app xs ys x :
  includes (xs ++ ys) x = includes xs x || includes ys x.
Proof.
  induction xs as [ | y xs IH ]; simpl; [ reflexivity | ].
  now destruct (String.eqb y x).
Qed.

Lemma recursivelyUpdateTags_union ids1 ids2 tag nodes :
  recursivelyUpdateTags ids2 tag (recursivelyUpdateTags ids1 tag nodes)
  = recursivelyUpdateTags (ids1 ++ ids2) tag nodes.
Proof.
  forest_induction nodes.
  - reflexivity.
  - rewrite (recursivelyUpdateTags_file ids1),
      (recursivelyUpdateTags_file (ids1 ++ ids2)), includes_app.
    destruct (includes ids1 (id f)) eqn:E1;
      rewrite recursivelyUpdateTags_file; simpl id;
      destruct (includes ids2 (id f)) eqn:E2; simpl;
      rewrite ?applyTag_idempotent; now f_equal.
  - rewrite !recursivelyUpdateTags_folder. now f_equal; [ f_equal | ].
Qed.

(** X14. Two batch updates with the same tag are one batch update with
    the ids of both; in particular applying a batch update again changes
    nothing. *)
Theorem X14_batch_update_composes (ids1 ids2 : list string) (tag : string)
  (T : list TreeNode) :
  recursivelyUpdateTags ids2 tag (recursivelyUpdateTags ids1 tag T)
  = recursivelyUpdateTags (ids1 ++ ids2) tag T
  /\ recursivelyUpdateTags ids1 tag (recursivelyUpdateTags ids1 tag T)
     = recursivelyUpdateTags ids1 tag T.
Proof.
  split; [ apply recursivelyUpdateTags_union | ].
  rewrite recursivelyUpdateTags_union.
  apply recursivelyUpdateTags_ext. intros x. rewrite in_app_iff. tauto.
Qed.

(** X15. The direct add and the batch update give a file the same tags
    when its tags had no duplicates; on a file without analysis they
    create different analyses: document type "Unknown" for the direct
    add, the empty string for the batch update. *)
Theorem X15_two_ways_to_tag (tag : string) (f : FileNode) :
  (NoDup (tagsOf f) -> tagsOf (applyTag tag f) = tagsOf (addTagToFile tag f))
  /\ (analysis f = None ->
      option_map documentType (analysis (addTagToFile tag f)) = Some "Unknown"
      /\ option_map documentType (analysis (applyTag tag f)) = Some ""
      /\ applyTag tag f <> addTagToFile tag f).
Proof.
  split.
  - intros Hnd. rewrite addTagToFile_tagsOf.
    unfold applyTag, hasTag, tagsOf in *.
    destruct (analysis f) as [ a | ]; simpl.
    + rewrite set_of_array_snoc, (set_of_array_fixed _ Hnd). reflexivity.
    + reflexivity.
  - intros Hnone. unfold addTagToFile, applyTag. rewrite Hnone. simpl.
    split; [ reflexivity | split; [ reflexivity | ] ].
    unfold withAnalysis. intros [= ].
Qed.

(** ** Saves that are not coalesced *)

Lemma scheduleSave_status tree w :
  saveStatus (snd (scheduleSave tree w)) = Saving.
Proof.
  unfold scheduleSave, saveEffect, seq, act, tryCatch, setTimeout, ret,
    clearTimeout.
  simpl. destruct (saveCleanup w); reflexivity.
Qed.

(** X16. From a world without pending timers, two changes of the tree
    that are 500 ms or more apart are each written to storage, in their
    order; the save status is "Saving..." from a change on and "All
    changes saved" once its write is done. *)
Theorem X16_spaced_changes_are_both_saved
  (compareImagesFn : FileNode -> FileNode -> Result bool)
  (w : World) (first second : list TreeNode) (gap extra : nat) :
  timers w = [] ->
  exists w1 w2 w3 w4,
    scheduleSave first w = (Ok tt, w1)
    /\ saveStatus w1 = Saving
    /\ advance compareImagesFn (500 + gap) w1 = (Ok tt, w2)
    /\ storageWrites w2 = storageWrites w ++ [ first ]
    /\ saveStatus w2 = AllChangesSaved
    /\ scheduleSave second w2 = (Ok tt, w3)
    /\ saveStatus w3 = Saving
    /\ advance compareImagesFn (500 + extra) w3 = (Ok tt, w4)
    /\ storageWrites w4 = storageWrites w ++ [ first; second ]
    /\ saveStatus w4 = AllChangesSaved.
Proof.
  intros Hnil.
  destruct (scheduleSave_spec first w (or_introl Hnil))
    as (w1 & Hrun1 & Hpending1 & Hclock1 & Hwrites1).
  rewrite <- Hclock1 in Hpending1.
  destruct (pending_save_fires compareImagesFn first gap w1 Hpending1)
    as (w2 & Hrun2 & Hwrites2 & Htimers2 & Hstatus2).
  destruct (scheduleSave_spec second w2 (or_introl Htimers2))
    as (w3 & Hrun3 & Hpending3 & Hclock3 & Hwrites3).
  rewrite <- Hclock3 in Hpending3.
  destruct (pending_save_fires compareImagesFn second extra w3 Hpending3)
    as (w4 & Hrun4 & Hwrites4 & _ & Hstatus4).
  exists w1, w2, w3, w4.
  split; [ exact Hrun1 | ].
  split; [ generalize (scheduleSave_status first w); now rewrite Hrun1 | ].
  split; [ exact Hrun2 | ].
  split; [ now rewrite Hwrites2, Hwrites1 | ].
  split; [ exact Hstatus2 | ].
  split; [ exact Hrun3 | ].
  split; [ generalize (scheduleSave_status second w2); now rewrite Hrun3 | ].
  split; [ exact Hrun4 | ].
  split; [ | exact Hstatus4 ].
  rewrite Hwrites4, Hwrites3, Hwrites2, Hwrites1, <- app_assoc. reflexivity.
Qed.

Lemma X16_spaced_changes_are_both_saved_witness :
  timers (freshWorld initialTreeData) = []
  /\ exists w1 w2 w3 w4,
       scheduleSave imagesTree (freshWorld initialTreeData) = (Ok tt, w1)
       /\ saveStatus w1 = Saving
       /\ advance (fun _ _ => Ok false) (500 + 0) w1 = (Ok tt, w2)
       /\ storageWrites w2 = [ imagesTree ]
       /\ saveStatus w2 = AllChangesSaved
       /\ scheduleSave [] w2 = (Ok tt, w3)
       /\ saveStatus w3 = Saving
       /\ advance (fun _ _ => Ok false) (500 + 7) w3 = (Ok tt, w4)
       /\ storageWrites w4 = [ imagesTree; [] ]
       /\ saveStatus w4 = AllChangesSaved.
Proof.
  split; [ reflexivity | ].
  exact (X16_spaced_changes_are_both_saved (fun _ _ => Ok false)
           (freshWorld initialTreeData) imagesTree [] 0 7 eq_refl).
Defined.

(** ** The timer that clears the status of a propagation *)

Section StatusTimer.

Variable compareImagesFn : FileNode -> FileNode -> Result bool.

Lemma scanAndApply_timers otherImages sourceFile newTag w :
  let w' := snd (scanAndApply compareImagesFn otherImages sourceFile newTag w) in
  timers w'
  = timers w ++ [ mkTimer (nextTimerId w)
                    (clock w + statusDisplayTime otherImages)
                    ClearPropagationStatus ]
  /\ nextTimerId w' = S (nextTimerId w).
Proof.
  unfold scanAndApply.
  destruct otherImages as [ | c cs ].
  - simpl. tauto.
  - remember (c :: cs) as candidates eqn:Ecands.
    replace (Nat.eqb (length candidates) 0) with false
      by (subst candidates; reflexivity).
    replace (statusDisplayTime candidates) with 5000
      by (subst candidates; reflexivity).
    destruct (compareLoop_spec compareImagesFn sourceFile
                (length candidates) candidates 0 0 [] w)
      as (w1 & Hrun & _ & (Hclock & Htimers & Hnext & _) & _).
    unfold seq, act, setTimeout, ret. rewrite Hrun.
    destruct (Nat.ltb 0 (length (snd _))); cbn [snd timers nextTimerId
      setNextTimerId setTimers setPropagationStatus setTreeData clock];
      rewrite Htimers, Hclock, Hnext; tauto.
Qed.

Lemma propagateTag_run_timers fileId tag w sourceFile :
  findNodeInTree (treeData w) fileId = Some (File sourceFile) ->
  isImageMime (mimeType sourceFile) = true ->
  Forall (fun t => clock w + 100 < due t) (timers w) ->
  exists w',
    propagateTag compareImagesFn fileId tag w = (Ok tt, w')
    /\ timers w'
       = timers w
         ++ [ mkTimer (S (nextTimerId w))
                (clock w + 100
                 + statusDisplayTime
                     (otherImagesOf (treeData w) sourceFile tag))
                ClearPropagationStatus ]
    /\ clock w' = clock w + 100.
Proof.
  intros Hfind Himage Hidle.
  unfold propagateTag, handlePropagateTag. rewrite Hfind, Himage.
  destruct (handleAddTag_spec fileId tag w)
    as (w1 & Hadd & _ & (Hclock1 & Htimers1 & Hnext1 & _) & _).
  unfold seq at 1. unfold seq at 1. rewrite Hadd.
  unfold seq at 1. unfold setTimeout at 1. unfold ret at 1.
  set (timer := mkTimer (nextTimerId w1) (clock w1 + 100)
                  (StartPropagation (treeData w) fileId tag)).
  set (w2 := setNextTimerId (S (nextTimerId w1))
               (setTimers (timers w1 ++ [timer]) w1)).
  rewrite (advance_fires_last compareImagesFn 99 w2 (timers w1) timer);
    [ | reflexivity | reflexivity
      | subst w2; simpl; rewrite Htimers1, Hclock1; exact Hidle ].
  set (w3 := setTimers (timers w1) (setClock (clock w2 + 100) w2)).
  unfold fireAll, seq, tryCatch. simpl callback. unfold runCallback.
  rewrite Hfind.
  destruct (propagate_spec compareImagesFn (treeData w) sourceFile tag w3)
    as (w' & Hrun & _ & _ & _ & Hclock & _).
  rewrite Hrun. exists w'. split; [ reflexivity | ].
  assert (Hw' : w' = snd (propagateTagToSimilarImages compareImagesFn
                            (treeData w) sourceFile tag w3))
    by now rewrite Hrun.
  split.
  - rewrite Hw'. unfold propagateTagToSimilarImages, seq at 1, act.
    destruct (scanAndApply_timers
                (otherImagesOf (treeData w) sourceFile tag) sourceFile tag
                (setPropagationStatus (mkPropagationStatus true MsgScanning) w3))
      as [Ht _].
    cbv zeta in Ht. rewrite Ht. subst w3 w2. simpl.
    now rewrite Htimers1, Hclock1, Hnext1.
  - rewrite Hclock. subst w3 w2. simpl. now rewrite Hclock1.
Qed.

(** X17. After a run of the workflow from a world without pending timers,
    the final status stays displayed for 5000 ms (3000 ms when there was
    no other image to compare) and is cleared at the end of them; the
    tree is not touched by that. *)
Theorem X17_status_is_cleared (w : World) (fileId tag : string)
  (sourceFile : FileNode) :
  findNodeInTree (treeData w) fileId = Some (File sourceFile) ->
  isImageMime (mimeType sourceFile) = true ->
  timers w = [] ->
  let shown := statusDisplayTime (otherImagesOf (treeData w) sourceFile tag) in
  exists w1,
    propagateTag compareImagesFn fileId tag w = (Ok tt, w1)
    /\ running (propagationStatus w1) = true
    /\ (forall k, k < shown ->
          exists v,
            advance compareImagesFn k w1 = (Ok tt, v)
            /\ propagationStatus v = propagationStatus w1)
    /\ exists w2,
         advance compareImagesFn shown w1 = (Ok tt, w2)
         /\ propagationStatus w2 = mkPropagationStatus false MsgEmpty
         /\ treeData w2 = treeData w1
         /\ timers w2 = [].
Proof.
  intros Hfind Himage Hnil shown.
  assert (Hidle : Forall (fun t => clock w + 100 < due t) (timers w))
    by (rewrite Hnil; constructor).
  destruct (propagateTag_run compareImagesFn fileId tag w sourceFile
              Hfind Himage Hidle) as (w1 & Hrun & _ & Hstatus & _).
  destruct (propagateTag_run_timers fileId tag w sourceFile Hfind Himage Hidle)
    as (w1' & Hrun' & Htimers & Hclock).
  assert (w1' = w1) by congruence. subst w1'.
  rewrite Hnil in Htimers. simpl app in Htimers. fold shown in Htimers.
  exists w1. split; [ exact Hrun | ]. split; [ now rewrite Hstatus | ].
  split.
  - intros k Hk. exists (setClock (clock w1 + k) w1). split; [ | reflexivity ].
    apply advance_idle. rewrite Htimers. repeat constructor. simpl. lia.
  - assert (Hshown : exists ms, shown = S ms).
    { subst shown. unfold statusDisplayTime.
      destruct (otherImagesOf _ _ _); [ now exists 2999 | now exists 4999 ]. }
    destruct Hshown as (ms & Hms). rewrite Hms in *.
    rewrite (advance_fires_last compareImagesFn ms w1 []
               (mkTimer (S (nextTimerId w)) (clock w + 100 + S ms)
                  ClearPropagationStatus));
      [ | exact Htimers | simpl; now rewrite Hclock | constructor ].
    eexists. split; [ reflexivity | ]. simpl. tauto.
Qed.

End StatusTimer.

Lemma X17_status_is_cleared_witness :
  findNodeInTree imagesTree "a" = Some (File imageA)
  /\ isImageMime (mimeType imageA) = true
  /\ exists w1,
       propagateTag (fun _ _ => Ok true) "a" "cat" (freshWorld imagesTree)
       = (Ok tt, w1)
       /\ running (propagationStatus w1) = true.
Proof.
  split; [ reflexivity | ]. split; [ reflexivity | ].
  destruct (X17_status_is_cleared (fun _ _ => Ok true) (freshWorld imagesTree)
              "a" "cat" imageA eq_refl eq_refl eq_refl)
    as (w1 & Hrun & Hshown & _).
  exists w1. split; [ exact Hrun | exact Hshown ].
Defined.

(** ** A second run of the workflow *)






Section SecondRun.

Variable generateContent : string * string -> string * string -> Result string.
Variable JSON_parse_match : string -> Result bool.


End SecondRun.


(** ** [analyzeFile] and the error banner *)

Lemma prefix_spec (a s : string) :
  String.prefix a s = true <-> exists post, s = (a ++ post)%string.
Proof.
  revert s. induction a as [ | x a IH ]; intros s.
  - split; [ intros _; now exists s | intros _; now destruct s ].
  - destruct s as [ | y s ]; simpl.
    + split; [ discriminate | intros (post & H); discriminate ].
    + destruct (ascii_dec x y) as [ -> | Hne ].
      * rewrite IH. split; intros (post & H); exists post; congruence.
      * split; [ discriminate | intros (post & H); congruence ].
Qed.

Lemma includesText_unfold (sub s : string) :
  includesText sub s
  = if String.prefix sub s then true
    else match s with
         | EmptyString => false
         | String _ rest => includesText sub rest
         end.
Proof. destruct s; reflexivity. Qed.

Lemma includesText_spec (sub s : string) :
  includesText sub s = true
  <-> exists pre post, s = (pre ++ sub ++ post)%string.
Proof.
  induction s as [ | c s IH ]; rewrite includesText_unfold.
  - destruct (String.prefix sub "") eqn:E.
    + apply prefix_spec in E. destruct E as (post & E).
      split; [ intros _; exists ""%string, post; exact E | reflexivity ].
    + split; [ discriminate | ].
      intros (pre & post & H). destruct pre; simpl in H.
      * assert (String.prefix sub "" = true)
          by (apply prefix_spec; now exists post).
        congruence.
      * discriminate.
  - destruct (String.prefix sub (String c s)) eqn:E.
    + apply prefix_spec in E. destruct E as (post & E).
      split; [ intros _; exists ""%string, post; exact E | reflexivity ].
    + rewrite IH. split.
      * intros (pre & post & H). exists (String c pre), post.
        simpl. now rewrite H.
      * intros (pre & post & H). destruct pre as [ | x pre ]; simpl in H.
        -- assert (String.prefix sub (String c s) = true)
             by (apply prefix_spec; now exists post).
           congruence.
        -- exists pre, post. congruence.
Qed.

Lemma mentionsQuota_spec message :
  mentionsQuota message = true
  <-> (exists pre post,
          message = (pre ++ "RESOURCE_EXHAUSTED" ++ post)%string)
      \/ (exists pre post, message = (pre ++ "429" ++ post)%string)
      \/ (exists pre post,
             toLowerCase message = (pre ++ "quota" ++ post)%string).
Proof.
  unfold mentionsQuota.
  rewrite !orb_true_iff, !includesText_spec. tauto.
Qed.

(** X19. [analyzeFile] returns the parsed analysis when the request and
    the parsing succeed. When either throws, it throws one of two fixed
    messages and nothing else: the quota message exactly when the
    message of the exception contains "RESOURCE_EXHAUSTED" or "429", or
    contains "quota" in any letter case, and the general message
    otherwise. *)
Theorem X19_analyzeFile_errors
  (generateAnalysis : string -> string -> string -> Result string)
  (JSON_parse_analysis : string -> Result AnalysisResult)
  (emptyMessageText fileName fileContent mime : string) :
  let result :=
    analyzeFile generateAnalysis JSON_parse_analysis emptyMessageText
      fileName fileContent mime in
  (forall text r,
      generateAnalysis fileName fileContent mime = Ok text ->
      JSON_parse_analysis text = Ok r ->
      result = Ok r)
  /\ (forall e,
         generateAnalysis fileName fileContent mime = Throw e
         \/ (exists text,
                generateAnalysis fileName fileContent mime = Ok text
                /\ JSON_parse_analysis text = Throw e) ->
         result = Throw (analyzerErrorFor emptyMessageText e))
  /\ (forall m,
         result = Throw m ->
         m = quotaExceededMessage \/ m = analysisFailedMessage)
  /\ (forall e,
         analyzerErrorFor emptyMessageText e = quotaExceededMessage
         <-> (let message := errorMessageOf emptyMessageText e in
              (exists pre post,
                  message = (pre ++ "RESOURCE_EXHAUSTED" ++ post)%string)
              \/ (exists pre post, message = (pre ++ "429" ++ post)%string)
              \/ (exists pre post,
                     toLowerCase message = (pre ++ "quota" ++ post)%string))).
Proof.
  intros result. subst result. unfold analyzeFile, try_catch, bind.
  split; [ | split; [ | split ] ].
  - intros text r Hgen Hparse. now rewrite Hgen, Hparse.
  - intros e [ Hgen | (text & Hgen & Hparse) ].
    + rewrite Hgen. unfold analyzerErrorFor.
      now destruct (mentionsQuota _).
    + rewrite Hgen, Hparse. unfold analyzerErrorFor.
      now destruct (mentionsQuota _).
  - intros m.
    destruct (generateAnalysis fileName fileContent mime) as [ text | e ].
    + destruct (JSON_parse_analysis text) as [ r | e ]; [ discriminate | ].
      destruct (mentionsQuota _); intros [= <-]; tauto.
    + destruct (mentionsQuota _); intros [= <-]; tauto.
  - intros e. cbv zeta. rewrite <- mentionsQuota_spec.
    unfold analyzerErrorFor.
    destruct (mentionsQuota (errorMessageOf emptyMessageText e)).
    + tauto.
    + split; [ discriminate | discriminate ].
Qed.

Lemma analyzeFile_throws generateAnalysis JSON_parse_analysis emptyMessageText
  fileName fileContent mime e :
  generateAnalysis fileName fileContent mime = Throw e
  \/ (exists text,
         generateAnalysis fileName fileContent mime = Ok text
         /\ JSON_parse_analysis text = Throw e) ->
  analyzeFile generateAnalysis JSON_parse_analysis emptyMessageText
    fileName fileContent mime
  = Throw (analyzerErrorFor emptyMessageText e).
Proof.
  unfold analyzeFile, try_catch, bind, analyzerErrorFor.
  intros [ Hgen | (text & Hgen & Hparse) ].
  - rewrite Hgen. now destruct (mentionsQuota _).
  - rewrite Hgen, Hparse. now destruct (mentionsQuota _).
Qed.

Lemma billing_hint_for emptyMessageText e :
  showsBillingHint (analyzerErrorFor emptyMessageText e)
  = mentionsQuota (errorMessageOf emptyMessageText e)
  /\ String.eqb (analyzerErrorFor emptyMessageText e) "" = false
  /\ analyzerErrorFor emptyMessageText e <> analysisFailedDefault.
Proof.
  unfold analyzerErrorFor.
  destruct (mentionsQuota (errorMessageOf emptyMessageText e));
    (split; [ vm_compute; reflexivity | split; [ reflexivity | discriminate ] ]).
Qed.

(** X20. When the request for an analysis fails inside [analyzeFile],
    [handleSelectNode] leaves the tree unchanged and puts the message of
    [analyzeFile] in [error], never its own default text; and the error
    banner shows its billing hint exactly when the exception of the
    request or of the parsing was a quota error for [analyzeFile]. *)
Theorem X20_error_banner
  (generateAnalysis : nat -> string -> string -> string -> Result string)
  (JSON_parse_analysis : string -> Result AnalysisResult)
  (emptyMessageText : string) (node : FileNode) (e : string) (w : World) :
  let analyzer :=
    fun k => analyzeFile (generateAnalysis k) JSON_parse_analysis
               emptyMessageText in
  analysis node = None ->
  generateAnalysis (length (analyzerCalls w)) (name node) (content node)
    (mimeType node) = Throw e
  \/ (exists text,
         generateAnalysis (length (analyzerCalls w)) (name node)
           (content node) (mimeType node) = Ok text
         /\ JSON_parse_analysis text = Throw e) ->
  exists w' shown,
    handleSelectNode analyzer node w = (Ok tt, w')
    /\ treeData w' = treeData w
    /\ error w' = Some shown
    /\ shown = analyzerErrorFor emptyMessageText e
    /\ shown <> analysisFailedDefault
    /\ showsBillingHint shown
       = mentionsQuota (errorMessageOf emptyMessageText e).
Proof.
  intros analyzer Hnone Hfail.
  assert (Hthrow : analyzer (length (analyzerCalls w)) (name node)
                     (content node) (mimeType node)
                   = Throw (analyzerErrorFor emptyMessageText e))
    by (subst analyzer; now apply analyzeFile_throws).
  destruct (select_failed analyzer node _ w Hnone Hthrow)
    as (w' & Hrun & Htree & _ & _ & Herror & _).
  destruct (billing_hint_for emptyMessageText e) as (Hhint & Hnonempty & Hne).
  rewrite Hnonempty in Herror.
  exists w', (analyzerErrorFor emptyMessageText e).
  repeat (split; [ assumption || reflexivity | ]). exact Hhint.
Qed.

Lemma X20_error_banner_witness :
  analysis imageA = None
  /\ exists w',
       handleSelectNode
         (fun _ => analyzeFile (fun _ _ _ => Throw "got status: 429")
                     (fun _ => Throw "unused") "Error")
         imageA (freshWorld imagesTree)
       = (Ok tt, w')
       /\ error w' = Some quotaExceededMessage.
Proof.
  split; [ reflexivity | ].
  destruct (X20_error_banner (fun _ _ _ _ => Throw "got status: 429")
              (fun _ => Throw "unused") "Error" imageA "got status: 429"
              (freshWorld imagesTree) eq_refl (or_introl eq_refl))
    as (w' & shown & Hrun & _ & Herror & Hshown & _).
  exists w'. split; [ exact Hrun | ]. rewrite Herror, Hshown. reflexivity.
Defined.

(** ** The tree between the click and the scan *)

Section CapturedTree.

Variable compareImagesFn : FileNode -> FileNode -> Result bool.

(** X21. Let the tree be replaced by any tree [edited] between the call
    of [handlePropagateTag] and the start of the scan 100 ms later. The
    scan still takes its source and its candidates from the tree as it
    was at the call, before the tag was added, and the matches are
    applied to the edited tree: what was changed in between is kept. *)
Theorem X21_scan_uses_tree_of_the_call (w : World) (fileId tag : string)
  (sourceFile : FileNode) (edited : list TreeNode) :
  findNodeInTree (treeData w) fileId = Some (File sourceFile) ->
  isImageMime (mimeType sourceFile) = true ->
  Forall (fun t => clock w + 100 < due t) (timers w) ->
  let candidates := otherImagesOf (treeData w) sourceFile tag in
  exists wa w',
    handlePropagateTag (treeData w) fileId tag w = (Ok tt, wa)
    /\ advance compareImagesFn 100 (setTreeData (fun _ => edited) wa)
       = (Ok tt, w')
    /\ compareCalls w' = compareCalls w ++ map (pair sourceFile) candidates
    /\ treeData w'
       = recursivelyUpdateTags
           (map id (matchesOf compareImagesFn sourceFile candidates)) tag edited.
Proof.
  intros Hfind Himage Hidle candidates.
  destruct (handleAddTag_spec fileId tag w)
    as (w1 & Hadd & _ & (Hclock1 & Htimers1 & Hnext1 & _) & Hcalls1 & _).
  set (timer := mkTimer (nextTimerId w1) (clock w1 + 100)
                  (StartPropagation (treeData w) fileId tag)).
  set (wa := setNextTimerId (Datatypes.S (nextTimerId w1))
               (setTimers (timers w1 ++ [timer]) w1)).
  assert (Hhandler : handlePropagateTag (treeData w) fileId tag w
                     = (Ok tt, wa)).
  { unfold handlePropagateTag. rewrite Hfind, Himage.
    unfold seq at 1. rewrite Hadd. reflexivity. }
  set (wb := setTreeData (fun _ => edited) wa).
  assert (Hfire := advance_fires_last compareImagesFn 99 wb (timers w1) timer).
  set (w3 := setTimers (timers w1) (setClock (clock wb + 100) wb)) in *.
  destruct (propagate_spec compareImagesFn (treeData w) sourceFile tag w3)
    as (w' & Hrun & Htree & _ & Hcalls & _).
  exists wa, w'. split; [ exact Hhandler | ]. split.
  - fold wb. rewrite Hfire;
      [ | reflexivity | reflexivity
        | subst wb wa; simpl; rewrite Htimers1, Hclock1; exact Hidle ].
    unfold fireAll, seq, tryCatch. simpl callback. unfold runCallback.
    rewrite Hfind, Hrun. reflexivity.
  - rewrite Htree, Hcalls. subst w3 wb wa. simpl. rewrite Hcalls1. tauto.
Qed.

End CapturedTree.

Lemma X21_scan_uses_tree_of_the_call_witness :
  findNodeInTree imagesTree "a" = Some (File imageA)
  /\ isImageMime (mimeType imageA) = true
  /\ exists wa w',
       handlePropagateTag imagesTree "a" "cat" (freshWorld imagesTree)
       = (Ok tt, wa)
       /\ advance (fun _ _ => Ok true) 100 (setTreeData (fun _ => []) wa)
          = (Ok tt, w')
       /\ compareCalls w' = [ (imageA, imageB) ]
       /\ treeData w' = [].
Proof.
  split; [ reflexivity | ]. split; [ reflexivity | ].
  destruct (X21_scan_uses_tree_of_the_call (fun _ _ => Ok true)
              (freshWorld imagesTree) "a" "cat" imageA [] eq_refl eq_refl
              (Forall_nil _))
    as (wa & w' & Hrun & Hadv & Hcalls & Htree).
  exists wa, w'. repeat (split; [ assumption | ]). exact Htree.
Defined.

(** ** Two requests with the same node object *)

Lemma update_ext nodes targetId f g :
  (forall node, f node = g node) ->
  updateNodeInTree nodes targetId f = updateNodeInTree nodes targetId g.
Proof.
  intros H.
  forest_induction nodes; tree_equations.
  - reflexivity.
  - rewrite H. now f_equal.
  - rewrite H. now f_equal; [ destruct (String.eqb i targetId); f_equal | ].
Qed.

Lemma updateAnalysis_overwrites node r1 r2 n :
  updateAnalysis node r2 (updateAnalysis node r1 n) = updateAnalysis node r2 n.
Proof.
  destruct n as [ f | ]; simpl; [ | reflexivity ].
  destruct (String.eqb (id f) (id node)) eqn:E; simpl; now rewrite E.
Qed.

(** X22. The test for a cached analysis reads the node object that is
    passed, not the tree: two requests with the same node object that has
    no analysis call the analyzer twice, and when both are answered the
    tree ends with the second answer attached. *)
Theorem X22_same_node_object_twice
  (analyzeFile : nat -> string -> string -> string -> Result AnalysisResult)
  (node : FileNode) (r1 r2 : AnalysisResult) (w : World) :
  analysis node = None ->
  analyzeFile (length (analyzerCalls w)) (name node) (content node)
    (mimeType node) = Ok r1 ->
  analyzeFile (S (length (analyzerCalls w))) (name node) (content node)
    (mimeType node) = Ok r2 ->
  exists w1 w2,
    handleSelectNode analyzeFile node w = (Ok tt, w1)
    /\ handleSelectNode analyzeFile node w1 = (Ok tt, w2)
    /\ analyzerCalls w2
       = analyzerCalls w
         ++ [ (name node, content node, mimeType node);
              (name node, content node, mimeType node) ]
    /\ treeData w2
       = updateNodeInTree (treeData w) (id node) (updateAnalysis node r2).
Proof.
  intros Hnone Hfirst Hsecond.
  destruct (select_analyzed analyzeFile node r1 w Hnone Hfirst)
    as (w1 & Hrun1 & Htree1 & Hcalls1 & _).
  assert (Hsecond' : analyzeFile (length (analyzerCalls w1)) (name node)
                       (content node) (mimeType node) = Ok r2).
  { rewrite Hcalls1, length_app. simpl. rewrite Nat.add_1_r. exact Hsecond. }
  destruct (select_analyzed analyzeFile node r2 w1 Hnone Hsecond')
    as (w2 & Hrun2 & Htree2 & Hcalls2 & _).
  exists w1, w2. split; [ exact Hrun1 | ]. split; [ exact Hrun2 | ]. split.
  - rewrite Hcalls2, Hcalls1, <- app_assoc. reflexivity.
  - rewrite Htree2, Htree1.
    rewrite (update_compose _ _ _
               (fun f => if String.eqb (id f) (id node)
                         then withAnalysis f (Some r1) else f));
      [ | apply updateAnalysis_fileLocal
        | intros f; now destruct (String.eqb (id f) (id node)) ].
    apply update_ext. intros n. apply updateAnalysis_overwrites.
Qed.

Lemma X22_same_node_object_twice_witness :
  analysis imageA = None
  /\ exists w1 w2,
       handleSelectNode (fun _ _ _ _ => Ok repeatedTags) imageA
         (freshWorld imagesTree)
       = (Ok tt, w1)
       /\ handleSelectNode (fun _ _ _ _ => Ok repeatedTags) imageA w1
          = (Ok tt, w2)
       /\ length (analyzerCalls w2) = 2.
Proof.
  split; [ reflexivity | ].
  destruct (X22_same_node_object_twice (fun _ _ _ _ => Ok repeatedTags)
              imageA repeatedTags repeatedTags (freshWorld imagesTree)
              eq_refl eq_refl eq_refl)
    as (w1 & w2 & Hrun1 & Hrun2 & Hcalls & _).
  exists w1, w2. split; [ exact Hrun1 | split; [ exact Hrun2 | ] ].
  rewrite Hcalls. reflexivity.
Defined.
